(** * Generic ESP32 Remote: command execution engine

    A shallow embedding of the pin controller ([PinController.cpp]), the
    command parser ([CommandParser.cpp]), the two command executors
    ([NetworkServer::processCommand], [SerialCommandHandler::executeCommand])
    and the watchdog supervisor ([WatchdogManager.cpp]), together with the
    properties the specification states about them.

    C++ [int] values are integers in [Z]; the places where the code checks a
    range are written out.  [std::map<int, T>] is a [gmap Z T]; the
    insert-on-access behaviour of [operator[]] is written out wherever the
    source uses it.  Calls into the Arduino core (pinMode, digitalWrite,
    digitalRead and the ledc calls) are recorded in a hardware log. *)

From Stdlib Require Import ZArith Lia Bool List.
From Stdlib Require Ascii String.
From stdpp Require Import base gmap strings list fin_maps sorting pretty.

Open Scope Z_scope.

(** ** Config.h *)

Module Config.

Definition SAFE_PINS : list Z :=
  [4; 5; 12; 13; 14; 15; 16; 17; 18; 19; 21; 22; 23; 25; 26; 27; 32; 33].

Definition SAFE_PIN_COUNT : Z := Z.of_nat (length SAFE_PINS).

Definition MAX_CONSECUTIVE_ERRORS : Z := 10.
Definition ERROR_COOLDOWN_PERIOD : Z := 5000.
Definition AUTO_RESTART_ON_CRITICAL_ERROR : bool := true.
Definition ENABLE_HW_WATCHDOG : bool := true.
Definition ENABLE_TASK_WATCHDOG : bool := true.

End Config.

(** ** The Arduino core, as far as the pin controller calls it

    Every call is appended to a log.  The level [digitalRead] sees on a pin is
    decided by the outside world; [hw_world] gives it as a function of
    everything that happened so far, so it may change from one read to the
    next.  [digitalRead] returns HIGH (1) or LOW (0). *)

Inductive HwPinMode := INPUT | OUTPUT.

Inductive HwEvent :=
  | EvPinMode (pin : Z) (m : HwPinMode)
  | EvDigitalWrite (pin value : Z)
  | EvDigitalRead (pin : Z) (level : bool)
  | EvLedcSetup (channel freq resolution : Z)
  | EvLedcAttachPin (pin channel : Z)
  | EvLedcWrite (channel duty : Z).

Record Hardware := mkHardware {
  hw_world : list HwEvent -> Z -> bool;
  hw_log : list HwEvent
}.

Definition hw_emit (e : HwEvent) (h : Hardware) : Hardware :=
  {| hw_world := hw_world h; hw_log := hw_log h ++ [e] |}.

Definition pinMode (pin : Z) (m : HwPinMode) : Hardware -> Hardware :=
  hw_emit (EvPinMode pin m).

Definition digitalWrite (pin value : Z) : Hardware -> Hardware :=
  hw_emit (EvDigitalWrite pin value).

Definition digitalRead (pin : Z) (h : Hardware) : Z * Hardware :=
  let level := hw_world h (hw_log h) pin in
  (Z.b2z level, hw_emit (EvDigitalRead pin level) h).

Definition ledcSetup (channel freq resolution : Z) : Hardware -> Hardware :=
  hw_emit (EvLedcSetup channel freq resolution).

Definition ledcAttachPin (pin channel : Z) : Hardware -> Hardware :=
  hw_emit (EvLedcAttachPin pin channel).

Definition ledcWrite (channel duty : Z) : Hardware -> Hardware :=
  hw_emit (EvLedcWrite channel duty).

Definition LOW : Z := 0.

(** Is [EvDigitalRead] among the events? *)
Definition is_read (e : HwEvent) : bool :=
  match e with EvDigitalRead _ _ => true | _ => false end.

(** ** PinController.h / PinController.cpp *)

Inductive PinMode := DIGITAL_OUTPUT | PWM_OUTPUT | DIGITAL_INPUT | NOT_CONFIGURED.

Definition PinMode_eqb (a b : PinMode) : bool :=
  match a, b with
  | DIGITAL_OUTPUT, DIGITAL_OUTPUT | PWM_OUTPUT, PWM_OUTPUT
  | DIGITAL_INPUT, DIGITAL_INPUT | NOT_CONFIGURED, NOT_CONFIGURED => true
  | _, _ => false
  end.

Record PinState := mkPinState {
  mode : PinMode;
  value : Z;
  isInitialized : bool
}.

(** [PinState()] *)
Definition PinState_new : PinState :=
  {| mode := NOT_CONFIGURED; value := 0; isInitialized := false |}.

Record PinController := mkPinController {
  _pinStates : gmap Z PinState;
  _nextPWMChannel : Z;
  _pinToPWMChannel : gmap Z Z;
  hw : Hardware
}.

Definition PWM_FREQUENCY : Z := 5000.
Definition PWM_RESOLUTION : Z := 8.

(** [PinController::PinController()] on a board whose outside world is
    [world]. *)
Definition PinController_new (world : list HwEvent -> Z -> bool) : PinController :=
  {| _pinStates := ∅; _nextPWMChannel := 0; _pinToPWMChannel := ∅;
     hw := {| hw_world := world; hw_log := [] |} |}.

(** [std::map::operator[]]: a missing key is inserted with a
    value-initialised element. *)
Definition map_subscript {V} (dflt : V) (k : Z) (m : gmap Z V) : gmap Z V :=
  match m !! k with
  | Some _ => m
  | None => <[k := dflt]> m
  end.

Definition with_pinStates (f : gmap Z PinState -> gmap Z PinState) (c : PinController) : PinController :=
  {| _pinStates := f (_pinStates c); _nextPWMChannel := _nextPWMChannel c;
     _pinToPWMChannel := _pinToPWMChannel c; hw := hw c |}.

Definition with_hw (f : Hardware -> Hardware) (c : PinController) : PinController :=
  {| _pinStates := _pinStates c; _nextPWMChannel := _nextPWMChannel c;
     _pinToPWMChannel := _pinToPWMChannel c; hw := f (hw c) |}.

Definition with_pinToPWMChannel (f : gmap Z Z -> gmap Z Z) (c : PinController) : PinController :=
  {| _pinStates := _pinStates c; _nextPWMChannel := _nextPWMChannel c;
     _pinToPWMChannel := f (_pinToPWMChannel c); hw := hw c |}.

(** [_pinStates[pin]] as an lvalue: make sure the element exists. *)
Definition pinStates_subscript (pin : Z) : PinController -> PinController :=
  with_pinStates (map_subscript PinState_new pin).

(** Reading through a reference obtained from [_pinStates[pin]]. *)
Definition pinState_ref (pin : Z) (c : PinController) : PinState :=
  default PinState_new (_pinStates c !! pin).

(** [state.value = v] through such a reference. *)
Definition set_state_value (pin v : Z) : PinController -> PinController :=
  with_pinStates (alter (fun s => {| mode := mode s; value := v; isInitialized := isInitialized s |}) pin).

Fixpoint isValidPin_from (pins : list Z) (pin : Z) : bool :=
  match pins with
  | [] => false
  | p :: rest => if p =? pin then true else isValidPin_from rest pin
  end.

(** [PinController::isValidPin] (and the identical
    [CommandParser::isValidPin]): linear search through [SAFE_PINS]. *)
Definition isValidPin (pin : Z) : bool := isValidPin_from Config.SAFE_PINS pin.

(** [PinController::configureDigitalOutput] *)
Definition configureDigitalOutput (pin : Z) (c : PinController) : bool * PinController :=
  let c := with_hw (pinMode pin OUTPUT) c in
  let c := with_hw (digitalWrite pin LOW) c in
  let c := pinStates_subscript pin c in
  let c := with_pinStates
             (alter (fun _ => {| mode := DIGITAL_OUTPUT; value := 0; isInitialized := true |}) pin) c in
  (true, c).

(** [PinController::configurePWMOutput] *)
Definition configurePWMOutput (pin : Z) (c : PinController) : bool * PinController :=
  if 16 <=? _nextPWMChannel c then (false, c)
  else
    let channel := _nextPWMChannel c in
    let c := {| _pinStates := _pinStates c; _nextPWMChannel := _nextPWMChannel c + 1;
                _pinToPWMChannel := _pinToPWMChannel c; hw := hw c |} in
    let c := with_hw (ledcSetup channel PWM_FREQUENCY PWM_RESOLUTION) c in
    let c := with_hw (ledcAttachPin pin channel) c in
    let c := with_hw (ledcWrite channel 0) c in
    let c := pinStates_subscript pin c in
    let c := with_pinStates
               (alter (fun _ => {| mode := PWM_OUTPUT; value := 0; isInitialized := true |}) pin) c in
    let c := with_pinToPWMChannel (<[pin := channel]>) c in
    (true, c).

(** [PinController::setDigital] *)
Definition setDigital (pin v : Z) (c : PinController) : bool * PinController :=
  if negb (isValidPin pin) then (false, c)
  else if negb (v =? 0) && negb (v =? 1) then (false, c)
  else
    let c := pinStates_subscript pin c in
    let state := pinState_ref pin c in
    let '(ok, c) :=
      if negb (isInitialized state) || negb (PinMode_eqb (mode state) DIGITAL_OUTPUT)
      then configureDigitalOutput pin c
      else (true, c) in
    if negb ok then (false, c)
    else
      let c := with_hw (digitalWrite pin v) c in
      let c := set_state_value pin v c in
      (true, c).

(** The last two statements of [getDigital]:
    [pinMode(pin, INPUT); return digitalRead(pin);] *)
Definition read_as_input (pin : Z) (c : PinController) : Z * PinController :=
  let c := with_hw (pinMode pin INPUT) c in
  let '(r, h) := digitalRead pin (hw c) in
  (r, with_hw (fun _ => h) c).

(** [PinController::getDigital] *)
Definition getDigital (pin : Z) (c : PinController) : Z * PinController :=
  if negb (isValidPin pin) then (-1, c)
  else
    match _pinStates c !! pin with
    | Some state =>
        if isInitialized state && PinMode_eqb (mode state) DIGITAL_OUTPUT
        then (value state, c)
        else read_as_input pin c
    | None => read_as_input pin c
    end.

(** [PinController::toggle] *)
Definition toggle (pin : Z) (c : PinController) : bool * PinController :=
  if negb (isValidPin pin) then (false, c)
  else
    let '(currentValue, c) := getDigital pin c in
    if currentValue <? 0 then (false, c)
    else setDigital pin (if currentValue =? 0 then 1 else 0) c.

(** [PinController::setPWM] *)
Definition setPWM (pin v : Z) (c : PinController) : bool * PinController :=
  if negb (isValidPin pin) then (false, c)
  else if (v <? 0) || (255 <? v) then (false, c)
  else
    let c := pinStates_subscript pin c in
    let state := pinState_ref pin c in
    let '(ok, c) :=
      if negb (isInitialized state) || negb (PinMode_eqb (mode state) PWM_OUTPUT)
      then configurePWMOutput pin c
      else (true, c) in
    if negb ok then (false, c)
    else
      let c := with_pinToPWMChannel (map_subscript 0 pin) c in
      let channel := default 0 (_pinToPWMChannel c !! pin) in
      let c := with_hw (ledcWrite channel v) c in
      let c := set_state_value pin v c in
      (true, c).

(** [PinController::getPWM] *)
Definition getPWM (pin : Z) (c : PinController) : Z * PinController :=
  if negb (isValidPin pin) then (-1, c)
  else
    match _pinStates c !! pin with
    | Some state =>
        if isInitialized state && PinMode_eqb (mode state) PWM_OUTPUT
        then (value state, c)
        else (-1, c)
    | None => (-1, c)
    end.

(** [PinController::getPinMode] *)
Definition getPinMode (pin : Z) (c : PinController) : PinMode :=
  match _pinStates c !! pin with
  | Some state => mode state
  | None => NOT_CONFIGURED
  end.

(** [PinController::isPinConfigured] *)
Definition isPinConfigured (pin : Z) (c : PinController) : bool :=
  match _pinStates c !! pin with
  | Some state => isInitialized state
  | None => false
  end.

(** The elements of a [std::map<int, T>] in iteration (key) order. *)
Definition key_le {V} (a b : Z * V) : Prop := a.1 ≤ b.1.

#[global] Instance key_le_dec {V} (a b : Z * V) : Decision (key_le a b) :=
  Z_le_dec a.1 b.1.

Definition map_in_order {V} (m : gmap Z V) : list (Z * V) :=
  merge_sort key_le (map_to_list m).

(** The body of the loop of [resetAllPins] for one element. *)
Definition resetAllPins_body (c : PinController) (pair : Z * PinState) : PinController :=
  let '(pin, state) := pair in
  if isInitialized state then
    if PinMode_eqb (mode state) DIGITAL_OUTPUT then
      with_hw (digitalWrite pin LOW) c
    else if PinMode_eqb (mode state) PWM_OUTPUT then
      let c := with_pinToPWMChannel (map_subscript 0 pin) c in
      let channel := default 0 (_pinToPWMChannel c !! pin) in
      with_hw (ledcWrite channel 0) c
    else c
  else c.

(** [PinController::resetAllPins] *)
Definition resetAllPins (c : PinController) : bool * PinController :=
  let c := fold_left resetAllPins_body (map_in_order (_pinStates c)) c in
  (true, {| _pinStates := ∅; _nextPWMChannel := 0; _pinToPWMChannel := ∅; hw := hw c |}).

(** What [getAllPinStates] and [getStateJSON] report: the elements with
    [isInitialized] set. *)
Definition reported_pins (c : PinController) : list (Z * PinState) :=
  filter (fun p => isInitialized p.2 = true) (map_in_order (_pinStates c)).

(** ** Arduino [String], as far as the parser uses it *)

Module AString.

Definition chr_space : Ascii.ascii := Ascii.ascii_of_N 32.
Definition chr_plus : Ascii.ascii := Ascii.ascii_of_N 43.
Definition chr_minus : Ascii.ascii := Ascii.ascii_of_N 45.
Definition chr_lbrace : Ascii.ascii := Ascii.ascii_of_N 123.

Definition isspace (c : Ascii.ascii) : bool :=
  let n := Ascii.N_of_ascii c in
  ((9 <=? n) && (n <=? 13))%N || (n =? 32)%N.

Definition isdigit (c : Ascii.ascii) : bool :=
  let n := Ascii.N_of_ascii c in ((48 <=? n) && (n <=? 57))%N.

Definition toupper (c : Ascii.ascii) : Ascii.ascii :=
  let n := Ascii.N_of_ascii c in
  if ((97 <=? n) && (n <=? 122))%N then Ascii.ascii_of_N (n - 32) else c.

Fixpoint drop_space (l : list Ascii.ascii) : list Ascii.ascii :=
  match l with
  | c :: rest => if isspace c then drop_space rest else l
  | [] => []
  end.

(** [String::trim] *)
Definition trim (s : string) : string :=
  String.string_of_list_ascii
    (rev (drop_space (rev (drop_space (String.list_ascii_of_string s))))).

(** [String::toUpperCase] *)
Definition toUpperCase (s : string) : string :=
  String.string_of_list_ascii (map toupper (String.list_ascii_of_string s)).

Fixpoint indexOf_from (c : Ascii.ascii) (l : list Ascii.ascii) (i : Z) : Z :=
  match l with
  | [] => -1
  | x :: rest => if Ascii.eqb x c then i else indexOf_from c rest (i + 1)
  end.

(** [String::indexOf(char)] *)
Definition indexOf (c : Ascii.ascii) (s : string) : Z :=
  indexOf_from c (String.list_ascii_of_string s) 0.

Definition len (s : string) : Z := Z.of_nat (String.length s).

(** [String::substring(left, right)] *)
Definition substring (from to : Z) (s : string) : string :=
  let lo := if to <? from then to else from in
  let hi := if to <? from then from else to in
  if len s <=? lo then EmptyString
  else
    let hi := if len s <? hi then len s else hi in
    String.substring (Z.to_nat lo) (Z.to_nat (hi - lo)) s.

(** [String::substring(from)] *)
Definition substring_from (from : Z) (s : string) : string :=
  substring from (len s) s.

(** [String::startsWith] for a one-character prefix. *)
Definition startsWith (c : Ascii.ascii) (s : string) : bool :=
  match s with
  | String x _ => Ascii.eqb x c
  | EmptyString => false
  end.

Fixpoint digits_value (l : list Ascii.ascii) (acc : Z) : Z :=
  match l with
  | c :: rest =>
      if isdigit c then digits_value rest (10 * acc + (Z.of_N (Ascii.N_of_ascii c) - 48))
      else acc
  | [] => acc
  end.

Definition INT_MAX : Z := 2147483647.
Definition INT_MIN : Z := -2147483648.

Definition clamp_long (z : Z) : Z :=
  if z <? INT_MIN then INT_MIN else if INT_MAX <? z then INT_MAX else z.

(** [String::toInt], that is [atol]: leading white space, an optional sign,
    then decimal digits; the result saturates at the ends of the 32-bit
    [long] range. *)
Definition toInt (s : string) : Z :=
  match drop_space (String.list_ascii_of_string s) with
  | c :: rest =>
      if Ascii.eqb c chr_minus then clamp_long (- digits_value rest 0)
      else if Ascii.eqb c chr_plus then clamp_long (digits_value rest 0)
      else clamp_long (digits_value (c :: rest) 0)
  | [] => 0
  end.

(** [String(int)] *)
Definition ofInt (z : Z) : string := pretty z.

End AString.

(** ** ArduinoJson documents

    A document is the list of its members in insertion order.  The values
    this protocol writes and reads are booleans, integers and strings.  What
    the library makes of a member of another type than the one asked for, and
    the text-to-document step itself, belong to the library and are taken as
    given ([JsonLibrary]). *)

Inductive JsonValue :=
  | JBool (b : bool)
  | JInt (z : Z)
  | JStr (s : string).

Definition JsonDocument := list (string * JsonValue).

Fixpoint doc_get (k : string) (doc : JsonDocument) : option JsonValue :=
  match doc with
  | [] => None
  | (k', v) :: rest => if String.eqb k' k then Some v else doc_get k rest
  end.

(** [doc[k] = v]: replace the member, or append it. *)
Fixpoint doc_set (k : string) (v : JsonValue) (doc : JsonDocument) : JsonDocument :=
  match doc with
  | [] => [(k, v)]
  | (k', v') :: rest =>
      if String.eqb k' k then (k', v) :: rest else (k', v') :: doc_set k v rest
  end.

Definition containsKey (k : string) (doc : JsonDocument) : bool :=
  match doc_get k doc with Some _ => true | None => false end.

Record JsonLibrary := mkJsonLibrary {
  (** [deserializeJson]: the error text, or the document *)
  deserializeJson : string -> string + JsonDocument;
  (** [as<String>()] of a member that is not a string *)
  other_as_String : JsonValue -> string;
  (** conversion to [int] of a member that is not an integer in range *)
  other_as_int : JsonValue -> Z
}.

Definition as_String (lib : JsonLibrary) (v : option JsonValue) : string :=
  match v with
  | Some (JStr s) => s
  | Some v => other_as_String lib v
  | None => ""
  end.

Definition as_int (lib : JsonLibrary) (v : option JsonValue) : Z :=
  match v with
  | Some (JInt z) =>
      if (AString.INT_MIN <=? z) && (z <=? AString.INT_MAX) then z
      else other_as_int lib (JInt z)
  | Some v => other_as_int lib v
  | None => 0
  end.

(** ** CommandParser.h / CommandParser.cpp *)

Inductive CommandType :=
  | INVALID | SET | GET | TOGGLE | PWM | STATUS | RESET | RESET_PINS | HELP.

Record Command := mkCommand {
  cmd_type : CommandType;
  cmd_pin : Z;
  cmd_value : Z;
  errorMessage : string
}.

(** [Command()] *)
Definition Command_new : Command :=
  {| cmd_type := INVALID; cmd_pin := -1; cmd_value := -1; errorMessage := "" |}.

(** [Command::isValid] *)
Definition isValid (cmd : Command) : bool :=
  match cmd_type cmd with INVALID => false | _ => true end.

(** [CommandParser::stringToCommandType] *)
Definition stringToCommandType (cmdStr : string) : CommandType :=
  if String.eqb cmdStr "SET" then SET
  else if String.eqb cmdStr "GET" then GET
  else if String.eqb cmdStr "TOGGLE" then TOGGLE
  else if String.eqb cmdStr "PWM" then PWM
  else if String.eqb cmdStr "STATUS" then STATUS
  else if String.eqb cmdStr "RESET" then RESET
  else if String.eqb cmdStr "RESET_PINS" then RESET_PINS
  else if String.eqb cmdStr "HELP" then HELP
  else INVALID.

(** [CommandParser::commandTypeToString] *)
Definition commandTypeToString (t : CommandType) : string :=
  match t with
  | SET => "SET"
  | GET => "GET"
  | TOGGLE => "TOGGLE"
  | PWM => "PWM"
  | STATUS => "STATUS"
  | RESET => "RESET"
  | RESET_PINS => "RESET_PINS"
  | HELP => "HELP"
  | INVALID => "INVALID"
  end.

(** The failure exits of the parsers: [cmd.errorMessage = msg;
    cmd.type = INVALID; return cmd;] with the pin and value read so far. *)
Definition reject (pin v : Z) (msg : string) : Command :=
  {| cmd_type := INVALID; cmd_pin := pin; cmd_value := v; errorMessage := msg |}.

(** The range checks both parsers make once pin and value are read. *)
Definition check_value (t : CommandType) (pin v : Z) : Command :=
  match t with
  | SET =>
      if negb (v =? 0) && negb (v =? 1) then reject pin v "SET value must be 0 or 1"
      else {| cmd_type := t; cmd_pin := pin; cmd_value := v; errorMessage := "" |}
  | PWM =>
      if (v <? 0) || (255 <? v) then reject pin v "PWM value must be 0-255"
      else {| cmd_type := t; cmd_pin := pin; cmd_value := v; errorMessage := "" |}
  | _ => {| cmd_type := t; cmd_pin := pin; cmd_value := v; errorMessage := "" |}
  end.

Section Parser.

Context (lib : JsonLibrary).

(** [CommandParser::parseJSON] *)
Definition parseJSON (jsonString : string) : Command :=
  match deserializeJson lib jsonString with
  | inl error => reject (-1) (-1) ("JSON parse error: " ++ error)
  | inr doc =>
      if negb (containsKey "cmd" doc) then reject (-1) (-1) "Missing 'cmd' field"
      else
        let cmdStr := AString.toUpperCase (as_String lib (doc_get "cmd" doc)) in
        let t := stringToCommandType cmdStr in
        match t with
        | INVALID => reject (-1) (-1) ("Invalid command type: " ++ cmdStr)
        | SET | GET | TOGGLE | PWM =>
            if negb (containsKey "pin" doc) then reject (-1) (-1) "Missing 'pin' field"
            else
              let pin := as_int lib (doc_get "pin" doc) in
              if negb (isValidPin pin)
              then reject pin (-1) ("Invalid pin number: " ++ AString.ofInt pin)
              else
                match t with
                | SET | PWM =>
                    if negb (containsKey "value" doc)
                    then reject pin (-1) "Missing 'value' field"
                    else check_value t pin (as_int lib (doc_get "value" doc))
                | _ => {| cmd_type := t; cmd_pin := pin; cmd_value := -1; errorMessage := "" |}
                end
        | STATUS | RESET | RESET_PINS | HELP =>
            {| cmd_type := t; cmd_pin := -1; cmd_value := -1; errorMessage := "" |}
        end
  end.

(** [CommandParser::parseText] *)
Definition parseText (textString : string) : Command :=
  let text := AString.toUpperCase textString in
  let firstSpace := AString.indexOf AString.chr_space text in
  let '(cmdStr, params) :=
    if firstSpace =? -1 then (text, ""%string)
    else (AString.substring 0 firstSpace text, AString.substring_from (firstSpace + 1) text) in
  let cmdStr := AString.trim cmdStr in
  let params := AString.trim params in
  let t := stringToCommandType cmdStr in
  match t with
  | INVALID => reject (-1) (-1) ("Invalid command: " ++ cmdStr)
  | SET | PWM =>
      let spacePos := AString.indexOf AString.chr_space params in
      if spacePos =? -1
      then reject (-1) (-1) "Missing parameters (expected: pin value)"
      else
        let pinStr := AString.trim (AString.substring 0 spacePos params) in
        let valueStr := AString.trim (AString.substring_from (spacePos + 1) params) in
        let pin := AString.toInt pinStr in
        let v := AString.toInt valueStr in
        if negb (isValidPin pin)
        then reject pin v ("Invalid pin number: " ++ AString.ofInt pin)
        else check_value t pin v
  | GET | TOGGLE =>
      if AString.len params =? 0 then reject (-1) (-1) "Missing pin parameter"
      else
        let pin := AString.toInt params in
        if negb (isValidPin pin)
        then reject pin (-1) ("Invalid pin number: " ++ AString.ofInt pin)
        else {| cmd_type := t; cmd_pin := pin; cmd_value := -1; errorMessage := "" |}
  | STATUS | RESET | RESET_PINS | HELP =>
      {| cmd_type := t; cmd_pin := -1; cmd_value := -1; errorMessage := "" |}
  end.

(** [CommandParser::parse] *)
Definition parse (commandString : string) : Command :=
  if AString.len commandString =? 0 then reject (-1) (-1) "Empty command"
  else
    let trimmed := AString.trim commandString in
    if AString.startsWith AString.chr_lbrace trimmed then parseJSON trimmed else parseText trimmed.

End Parser.

(** [CommandParser::generateResponse], before [serializeJson]. *)
Definition generateResponse (cmd : Command) (success : bool) (message : string)
    (resultValue : Z) : JsonDocument :=
  let doc := doc_set "success" (JBool success) [] in
  let doc := doc_set "command" (JStr (commandTypeToString (cmd_type cmd))) doc in
  let doc := if 0 <=? cmd_pin cmd then doc_set "pin" (JInt (cmd_pin cmd)) doc else doc in
  let doc := if 0 <=? resultValue then doc_set "value" (JInt resultValue) doc else doc in
  if 0 <? AString.len message then doc_set "message" (JStr message) doc
  else if negb success && (0 <? AString.len (errorMessage cmd))
       then doc_set "message" (JStr (errorMessage cmd)) doc
       else doc.

Definition dquote : string := String (Ascii.ascii_of_N 34) EmptyString.
Definition newline : string := String (Ascii.ascii_of_N 10) EmptyString.

(** One member of a request as the help text prints it: a quoted key, a
    colon and the value text. *)
Definition help_member (k v : string) : string := dquote ++ k ++ dquote ++ ":" ++ v.
Definition help_quoted (s : string) : string := dquote ++ s ++ dquote.

Fixpoint help_pins (first : bool) (pins : list Z) : string :=
  match pins with
  | [] => ""
  | p :: rest => (if first then "" else ", ") ++ AString.ofInt p ++ help_pins false rest
  end.

(** [CommandParser::getHelpText] *)
Definition getHelpText : string :=
  "ESP32 Pin Controller - Command Reference" ++ newline ++ newline ++
  "JSON Format:" ++ newline ++
  "  Set pin:    {" ++ help_member "cmd" (help_quoted "SET") ++ "," ++ help_member "pin" "13"
     ++ "," ++ help_member "value" "1" ++ "}" ++ newline ++
  "  Get pin:    {" ++ help_member "cmd" (help_quoted "GET") ++ "," ++ help_member "pin" "13"
     ++ "}" ++ newline ++
  "  Toggle pin: {" ++ help_member "cmd" (help_quoted "TOGGLE") ++ "," ++ help_member "pin" "13"
     ++ "}" ++ newline ++
  "  PWM:        {" ++ help_member "cmd" (help_quoted "PWM") ++ "," ++ help_member "pin" "13"
     ++ "," ++ help_member "value" "128" ++ "}" ++ newline ++
  "  Status:     {" ++ help_member "cmd" (help_quoted "STATUS") ++ "}" ++ newline ++
  "  Reset:      {" ++ help_member "cmd" (help_quoted "RESET") ++ "}" ++ newline ++ newline ++
  "Text Format:" ++ newline ++
  "  Set pin:    SET 13 1" ++ newline ++
  "  Get pin:    GET 13" ++ newline ++
  "  Toggle pin: TOGGLE 13" ++ newline ++
  "  PWM:        PWM 13 128" ++ newline ++
  "  Status:     STATUS" ++ newline ++
  "  Reset:      RESET" ++ newline ++ newline ++
  "Available pins: " ++ help_pins true Config.SAFE_PINS ++ newline.

(** ** NetworkServer::processCommand and SerialCommandHandler::executeCommand

    What goes back to the client: the response document of
    [generateResponse], the aggregate status report (of which only the pin
    projection is kept here), the help text, or (on the console) the banner
    announcing a restart. *)

Inductive Reply :=
  | ReplyJson (doc : JsonDocument)
  | ReplyStatus (pins : list (Z * PinState))
  | ReplyHelp (text : string)
  | ReplyBanner (text : string).

(** The [success] member of a reply; the status report always carries
    [true], the help text has none. *)
Definition reply_success (r : Reply) : option bool :=
  match r with
  | ReplyJson doc => match doc_get "success" doc with Some (JBool b) => Some b | _ => None end
  | ReplyStatus _ => Some true
  | ReplyHelp _ | ReplyBanner _ => None
  end.

Section Executors.

Context (lib : JsonLibrary).

(** [NetworkServer::processCommand] *)
Definition processCommand (commandStr : string) (c : PinController) : Reply * PinController :=
  let cmd := parse lib commandStr in
  if negb (isValid cmd) then (ReplyJson (generateResponse cmd false "" (-1)), c)
  else
    match cmd_type cmd with
    | SET =>
        let '(success, c) := setDigital (cmd_pin cmd) (cmd_value cmd) c in
        let message := if success then "Pin set successfully" else "Failed to set pin" in
        (ReplyJson (generateResponse cmd success message (cmd_value cmd)), c)
    | GET =>
        let '(resultValue, c) := getDigital (cmd_pin cmd) c in
        let success := 0 <=? resultValue in
        let message := if success then "Pin value retrieved" else "Failed to get pin value" in
        (ReplyJson (generateResponse cmd success message resultValue), c)
    | TOGGLE =>
        let '(success, c) := toggle (cmd_pin cmd) c in
        if success then
          let '(resultValue, c) := getDigital (cmd_pin cmd) c in
          (ReplyJson (generateResponse cmd success "Pin toggled successfully" resultValue), c)
        else
          (ReplyJson (generateResponse cmd success "Failed to toggle pin" (-1)), c)
    | PWM =>
        let '(success, c) := setPWM (cmd_pin cmd) (cmd_value cmd) c in
        let message := if success then "PWM set successfully" else "Failed to set PWM" in
        (ReplyJson (generateResponse cmd success message (cmd_value cmd)), c)
    | STATUS => (ReplyStatus (reported_pins c), c)
    | RESET =>
        (ReplyJson (generateResponse cmd true "System will restart in 2 seconds" (-1)), c)
    | HELP => (ReplyHelp getHelpText, c)
    | _ => (ReplyJson (generateResponse cmd false "Unknown command" (-1)), c)
    end.

(** [SerialCommandHandler::executeCommand]; the second component is the
    delay handed to the restart callback, if it was called. *)
Definition executeCommand (hasRestartCallback : bool) (cmd : Command) (c : PinController)
    : Reply * option Z * PinController :=
  match cmd_type cmd with
  | SET =>
      let '(success, c) := setDigital (cmd_pin cmd) (cmd_value cmd) c in
      let message := if success then "Pin set successfully" else "Failed to set pin" in
      (ReplyJson (generateResponse cmd success message (cmd_value cmd)), None, c)
  | GET =>
      let '(resultValue, c) := getDigital (cmd_pin cmd) c in
      let success := 0 <=? resultValue in
      let message := if success then "Pin value retrieved" else "Failed to get pin value" in
      (ReplyJson (generateResponse cmd success message resultValue), None, c)
  | TOGGLE =>
      let '(success, c) := toggle (cmd_pin cmd) c in
      if success then
        let '(resultValue, c) := getDigital (cmd_pin cmd) c in
        (ReplyJson (generateResponse cmd success "Pin toggled successfully" resultValue), None, c)
      else
        (ReplyJson (generateResponse cmd success "Failed to toggle pin" (-1)), None, c)
  | PWM =>
      let '(success, c) := setPWM (cmd_pin cmd) (cmd_value cmd) c in
      let message := if success then "PWM set successfully" else "Failed to set PWM" in
      (ReplyJson (generateResponse cmd success message (cmd_value cmd)), None, c)
  | STATUS => (ReplyStatus (reported_pins c), None, c)
  | RESET =>
      (ReplyBanner "RESTART REQUESTED", if hasRestartCallback then Some 2000 else None, c)
  | HELP => (ReplyHelp getHelpText, None, c)
  | _ => (ReplyJson (generateResponse cmd false "Unknown command" (-1)), None, c)
  end.

(** [SerialCommandHandler::processSerialCommands] on one line read from the
    console; [None] when nothing is printed. *)
Definition processSerialCommands (hasRestartCallback : bool) (line : string) (c : PinController)
    : option (Reply * option Z) * PinController :=
  let command := AString.trim line in
  if AString.len command =? 0 then (None, c)
  else
    let cmd := parse lib command in
    if negb (isValid cmd) then (Some (ReplyJson (generateResponse cmd false "" (-1)), None), c)
    else
      let '(r, d, c) := executeCommand hasRestartCallback cmd c in
      (Some (r, d), c).

End Executors.

(** ** WatchdogManager.h / WatchdogManager.cpp

    [millis()] is an [unsigned long] of 32 bits; differences of timestamps
    wrap around. *)

Definition wrap32 (z : Z) : Z := z mod 2 ^ 32.

(** [x + 1] on a 32-bit [int]. *)
Definition int_incr (x : Z) : Z :=
  if x + 1 <=? AString.INT_MAX then x + 1 else AString.INT_MIN.

Inductive WdtCall :=
  | esp_task_wdt_init (timeout : Z) (panic : bool)
  | esp_task_wdt_add
  | esp_task_wdt_reset
  | esp_task_wdt_delete.

Record WatchdogManager := mkWatchdogManager {
  _lastFeed : Z;
  _startTime : Z;
  _errorCount : Z;
  _consecutiveErrors : Z;
  _lastError : string;
  _lastErrorTime : Z;
  _hwWatchdogEnabled : bool;
  _taskWatchdogEnabled : bool;
  wdt_calls : list WdtCall
}.

Definition FEED_INTERVAL : Z := 1000.
Definition HW_WATCHDOG_TIMEOUT_SEC : Z := 8.

(** [WatchdogManager::WatchdogManager()] *)
Definition WatchdogManager_new : WatchdogManager :=
  {| _lastFeed := 0; _startTime := 0; _errorCount := 0; _consecutiveErrors := 0;
     _lastError := ""; _lastErrorTime := 0;
     _hwWatchdogEnabled := false; _taskWatchdogEnabled := false; wdt_calls := [] |}.

(** [WatchdogManager::begin]; [now] is what [millis()] returns. *)
Definition begin (now : Z) (w : WatchdogManager) : WatchdogManager :=
  {| _lastFeed := now; _startTime := now;
     _errorCount := _errorCount w; _consecutiveErrors := _consecutiveErrors w;
     _lastError := _lastError w; _lastErrorTime := _lastErrorTime w;
     _hwWatchdogEnabled := if Config.ENABLE_HW_WATCHDOG then true else _hwWatchdogEnabled w;
     _taskWatchdogEnabled := if Config.ENABLE_TASK_WATCHDOG then true else _taskWatchdogEnabled w;
     wdt_calls := if Config.ENABLE_HW_WATCHDOG
                  then wdt_calls w ++ [esp_task_wdt_init HW_WATCHDOG_TIMEOUT_SEC true; esp_task_wdt_add]
                  else wdt_calls w |}.

(** [WatchdogManager::feed] *)
Definition feed (currentMillis : Z) (w : WatchdogManager) : WatchdogManager :=
  if wrap32 (currentMillis - _lastFeed w) <? FEED_INTERVAL then w
  else
    {| _lastFeed := currentMillis; _startTime := _startTime w;
       _errorCount := _errorCount w;
       _consecutiveErrors :=
         if (0 <? _consecutiveErrors w)
            && (Config.ERROR_COOLDOWN_PERIOD <? wrap32 (currentMillis - _lastErrorTime w))
         then 0 else _consecutiveErrors w;
       _lastError := _lastError w; _lastErrorTime := _lastErrorTime w;
       _hwWatchdogEnabled := _hwWatchdogEnabled w;
       _taskWatchdogEnabled := _taskWatchdogEnabled w;
       wdt_calls := if Config.ENABLE_HW_WATCHDOG && _hwWatchdogEnabled w
                    then wdt_calls w ++ [esp_task_wdt_reset] else wdt_calls w |}.

(** A supervisor call either returns, or ends in [restart], which reboots
    the device and never returns. *)
Inductive Outcome :=
  | Returns (w : WatchdogManager)
  | Restarts (reason : string) (w : WatchdogManager).

(** [WatchdogManager::restart] *)
Definition restart (reason : string) (w : WatchdogManager) : Outcome := Restarts reason w.

(** [WatchdogManager::registerError] *)
Definition registerError (errorMessage : string) (now : Z) (w : WatchdogManager) : Outcome :=
  let w := {| _lastFeed := _lastFeed w; _startTime := _startTime w;
              _errorCount := int_incr (_errorCount w);
              _consecutiveErrors := int_incr (_consecutiveErrors w);
              _lastError := errorMessage; _lastErrorTime := now;
              _hwWatchdogEnabled := _hwWatchdogEnabled w;
              _taskWatchdogEnabled := _taskWatchdogEnabled w;
              wdt_calls := wdt_calls w |} in
  if Config.MAX_CONSECUTIVE_ERRORS <=? _consecutiveErrors w then
    if Config.AUTO_RESTART_ON_CRITICAL_ERROR
    then restart "Maximum consecutive errors exceeded" w
    else Returns w
  else Returns w.

(** [WatchdogManager::clearErrors] *)
Definition clearErrors (w : WatchdogManager) : WatchdogManager :=
  {| _lastFeed := _lastFeed w; _startTime := _startTime w;
     _errorCount := _errorCount w; _consecutiveErrors := 0;
     _lastError := _lastError w; _lastErrorTime := _lastErrorTime w;
     _hwWatchdogEnabled := _hwWatchdogEnabled w;
     _taskWatchdogEnabled := _taskWatchdogEnabled w; wdt_calls := wdt_calls w |}.

(** [WatchdogManager::shouldRestart] *)
Definition shouldRestart (w : WatchdogManager) : bool :=
  Config.MAX_CONSECUTIVE_ERRORS <=? _consecutiveErrors w.

(** The supervisor's steps, each with the timestamp [millis()] gives it. *)
Inductive Call :=
  | CallFeed (now : Z)
  | CallRegisterError (message : string) (now : Z).

Definition step (w : WatchdogManager) (call : Call) : Outcome :=
  match call with
  | CallFeed now => Returns (feed now w)
  | CallRegisterError message now => registerError message now w
  end.

(** Run the calls in order.  The result is the final supervisor when every
    call returned, or the position (from 0) of the call that ended in
    [restart]; nothing runs after that call. *)
Fixpoint run_from (i : nat) (calls : list Call) (w : WatchdogManager) : WatchdogManager + nat :=
  match calls with
  | [] => inl w
  | call :: rest =>
      match step w call with
      | Returns w' => run_from (S i) rest w'
      | Restarts _ _ => inr i
      end
  end.

Definition run (calls : list Call) (w : WatchdogManager) : WatchdogManager + nat :=
  run_from 0 calls w.

(** ** Vocabulary for the properties

    The three parts of the pin state store, without the hardware. *)

Definition store (c : PinController) : gmap Z PinState * Z * gmap Z Z :=
  (_pinStates c, _nextPWMChannel c, _pinToPWMChannel c).

Definition digital (v : Z) : PinState :=
  {| mode := DIGITAL_OUTPUT; value := v; isInitialized := true |}.

Definition pwm (v : Z) : PinState :=
  {| mode := PWM_OUTPUT; value := v; isInitialized := true |}.

(** The pin has an initialised record in the given mode. *)
Definition in_mode (m : PinMode) (pin : Z) (c : PinController) : bool :=
  match _pinStates c !! pin with
  | Some state => isInitialized state && PinMode_eqb (mode state) m
  | None => false
  end.

Definition pwm_value_ok (v : Z) : bool := negb ((v <? 0) || (255 <? v)).

(** ** Sequences of pin state store operations *)

Inductive Op :=
  | OpSetDigital (pin v : Z)
  | OpGetDigital (pin : Z)
  | OpToggle (pin : Z)
  | OpSetPWM (pin v : Z)
  | OpGetPWM (pin : Z)
  | OpResetAllPins.

Definition apply_op (c : PinController) (op : Op) : PinController :=
  match op with
  | OpSetDigital pin v => (setDigital pin v c).2
  | OpGetDigital pin => (getDigital pin c).2
  | OpToggle pin => (toggle pin c).2
  | OpSetPWM pin v => (setPWM pin v c).2
  | OpGetPWM pin => (getPWM pin c).2
  | OpResetAllPins => (resetAllPins c).2
  end.

Definition run_ops (ops : list Op) (c : PinController) : PinController :=
  fold_left apply_op ops c.

(** The controllers a freshly constructed one can become. *)
Definition reachable (c : PinController) : Prop :=
  exists world ops, c = run_ops ops (PinController_new world).

(** The invariant of the store, on its three parts: the records [s], the
    allocator's next channel [n] and the pin-to-channel map [ch]. *)
Record store_ok (s : gmap Z PinState) (n : Z) (ch : gmap Z Z) : Prop := {
  ok_next : 0 <= n <= 16;
  ok_range : forall p k, ch !! p = Some k -> 0 <= k < n;
  ok_inj : forall p q k, ch !! p = Some k -> ch !! q = Some k -> p = q;
  ok_count : Z.of_nat (size ch) <= n;
  ok_pwm : forall p v, s !! p = Some (pwm v) -> is_Some (ch !! p) /\ 0 <= v <= 255;
  ok_digital : forall p v, s !! p = Some (digital v) -> v = 0 \/ v = 1;
  ok_shape : forall p st, s !! p = Some st ->
    isValidPin p = true /\
    (st = PinState_new \/ (exists v, st = digital v) \/ (exists v, st = pwm v))
}.

Definition store_inv (c : PinController) : Prop :=
  store_ok (_pinStates c) (_nextPWMChannel c) (_pinToPWMChannel c).

(** The commands that address a pin. *)
Definition pin_command (t : CommandType) : bool :=
  match t with
  | SET | GET | TOGGLE | PWM => true
  | _ => false
  end.

(** A command value of one of the four pin-addressing types, for pin [p]. *)
Definition addresses (cmd : Command) (p : Z) : Prop :=
  cmd_pin cmd = p /\ pin_command (cmd_type cmd) = true.

(** What a parser returns for a request naming pin [p]: a pin-addressing
    command for [p], or a rejection that recorded [p]. *)
Definition names_pin (cmd : Command) (p : Z) : Prop :=
  cmd_pin cmd = p /\ (pin_command (cmd_type cmd) || negb (isValid cmd)) = true.

(** A stand-in for the JSON library in examples: the deserializer yields
    [doc] whatever the text, and members of an unexpected type convert to the
    empty string and to 0. *)
Definition library_yielding (doc : JsonDocument) : JsonLibrary :=
  {| deserializeJson := fun _ => inr doc;
     other_as_String := fun _ => ""%string;
     other_as_int := fun _ => 0 |}.

(** A board on which nothing pulls any pin high. *)
Definition quiet_world : list HwEvent -> Z -> bool := fun _ _ => false.

(** Pin 13 driven high on a fresh controller. *)
Definition pin13_high : PinController :=
  (setDigital 13 1 (PinController_new quiet_world)).2.

(** Sixteen pins put into PWM mode on a fresh controller: every channel of
    the pool is handed out. *)
Definition pool_exhausted : PinController :=
  run_ops (map (fun p => OpSetPWM p 128)
               [4; 5; 12; 13; 14; 15; 16; 17; 18; 19; 21; 22; 23; 25; 26; 27])
          (PinController_new quiet_world).

(** The response to a command the executors do not know. *)
Definition unknown_command_response (t : CommandType) : JsonDocument :=
  [("success"%string, JBool false); ("command"%string, JStr (commandTypeToString t));
   ("message"%string, JStr "Unknown command")].

(** ** Runs of supervisor calls *)

Definition is_error (call : Call) : bool :=
  match call with CallRegisterError _ _ => true | CallFeed _ => false end.

Definition count_errors (calls : list Call) : nat := length (filter (fun c => is_error c = true) calls).

(** No cooldown intervenes: no [feed] in [calls] comes more than
    [ERROR_COOLDOWN_PERIOD] after the latest error before it ([lastErr] is
    the time of the latest error so far, if there was one). *)
Fixpoint no_cooldown (lastErr : option Z) (calls : list Call) : bool :=
  match calls with
  | [] => true
  | CallFeed t :: rest =>
      match lastErr with
      | Some te => (wrap32 (t - te) <=? Config.ERROR_COOLDOWN_PERIOD) && no_cooldown lastErr rest
      | None => no_cooldown lastErr rest
      end
  | CallRegisterError _ t :: rest => no_cooldown (Some t) rest
  end.

(** Errors spread out with a cooldown in every interval, as the
    specification words it: from one error to the next more than
    [ERROR_COOLDOWN_PERIOD] passes, and in between [feed] is called at least
    once at a time more than [ERROR_COOLDOWN_PERIOD] after the earlier
    error.  [fed] records whether such a call was seen since [lastErr]. *)
Fixpoint spread_as_worded (lastErr : option Z) (fed : bool) (calls : list Call) : bool :=
  match calls with
  | [] => true
  | CallFeed t :: rest =>
      match lastErr with
      | Some te =>
          spread_as_worded lastErr (fed || (Config.ERROR_COOLDOWN_PERIOD <? wrap32 (t - te))) rest
      | None => spread_as_worded lastErr fed rest
      end
  | CallRegisterError _ t :: rest =>
      match lastErr with
      | Some te =>
          (Config.ERROR_COOLDOWN_PERIOD <? wrap32 (t - te)) && fed
          && spread_as_worded (Some t) false rest
      | None => spread_as_worded (Some t) false rest
      end
  end.

(** Every error is followed, before the next error, by a [feed] that is not
    rate-limited (it comes at least [FEED_INTERVAL] after the previously
    accepted feed, [lastFeed]) and comes more than [ERROR_COOLDOWN_PERIOD]
    after that error.  Any other [feed] calls may come in between, before
    or after it.  [pending] is the time of the latest error as long as no
    such [feed] has followed it. *)
Fixpoint cooldown_after_each_error (lastFeed : Z) (pending : option Z) (calls : list Call)
    : bool :=
  match calls with
  | [] => true
  | CallFeed t :: rest =>
      let accepted := FEED_INTERVAL <=? wrap32 (t - lastFeed) in
      let lastFeed := if accepted then t else lastFeed in
      match pending with
      | Some te =>
          if accepted && (Config.ERROR_COOLDOWN_PERIOD <? wrap32 (t - te))
          then cooldown_after_each_error lastFeed None rest
          else cooldown_after_each_error lastFeed pending rest
      | None => cooldown_after_each_error lastFeed None rest
      end
  | CallRegisterError _ t :: rest =>
      match pending with
      | Some _ => false
      | None => cooldown_after_each_error lastFeed (Some t) rest
      end
  end.

(** Two errors more than the cooldown apart, with a too early and a late
    [feed] after each. *)
Definition spread_run : list Call :=
  [CallRegisterError "e" 500; CallFeed 1000; CallFeed 6000;
   CallRegisterError "e" 6500; CallFeed 7000; CallFeed 12000;
   CallRegisterError "e" 12500].

(** The supervisor after [begin] at time 0. *)
Definition booted : WatchdogManager := begin 0 WatchdogManager_new.

(** Ten errors 5100 ms apart.  After each of the first nine, [feed] is
    called 4500 ms after the error (accepted, too early to clear) and again
    5050 ms after it (past the cooldown, but only 550 ms after the accepted
    feed, so the rate limiter returns early). *)
Definition throttled_run : list Call :=
  flat_map (fun i => [CallRegisterError "e" (500 + 5100 * i);
                      CallFeed (5000 + 5100 * i);
                      CallFeed (5550 + 5100 * i)])
           [0; 1; 2; 3; 4; 5; 6; 7; 8]
  ++ [CallRegisterError "e" (500 + 5100 * 9)].

(** ** Vocabulary for the parser properties *)

(** The command carries a pin: [Command()] leaves [pin] at -1, and
    [generateResponse] takes a non-negative [pin] as one that was set. *)
Definition carries_pin (cmd : Command) : bool := 0 <=? cmd_pin cmd.

(** The message a response ends up with: the caller's if there is one,
    else on failure the command's recorded reason, else none. *)
Definition resulting_message (cmd : Command) (success : bool) (message : string) : string :=
  if 0 <? AString.len message then message
  else if negb success then errorMessage cmd
  else ""%string.

(** What a valid command looks like, by type. *)
Definition well_formed (cmd : Command) : Prop :=
  errorMessage cmd = ""%string /\
  match cmd_type cmd with
  | SET => isValidPin (cmd_pin cmd) = true /\ (cmd_value cmd = 0 \/ cmd_value cmd = 1)
  | PWM => isValidPin (cmd_pin cmd) = true /\ 0 <= cmd_value cmd <= 255
  | GET | TOGGLE => isValidPin (cmd_pin cmd) = true /\ cmd_value cmd = -1
  | STATUS | RESET | RESET_PINS | HELP => cmd_pin cmd = -1 /\ cmd_value cmd = -1
  | INVALID => False
  end.

Definition member_as (k' k : string) (doc : JsonDocument) : JsonDocument :=
  match doc_get k doc with
  | Some v => [(k', v)]
  | None => []
  end.

(** The structured request built from the [command], [pin] and [value]
    members of a response. *)
Definition request_of_response (doc : JsonDocument) : JsonDocument :=
  member_as "cmd" "command" doc ++ member_as "pin" "pin" doc ++ member_as "value" "value" doc.

Definition set_13_request : JsonDocument :=
  [("cmd"%string, JStr "SET"); ("pin"%string, JInt 13); ("value"%string, JInt 1)].

Definition set_13_request_without_value : JsonDocument :=
  [("cmd"%string, JStr "SET"); ("pin"%string, JInt 13)].

(** ** Vocabulary for further properties of the pin controller *)

(** The pin an operation addresses, if it addresses one. *)
Definition op_pin (op : Op) : option Z :=
  match op with
  | OpSetDigital pin _ | OpGetDigital pin | OpToggle pin
  | OpSetPWM pin _ | OpGetPWM pin => Some pin
  | OpResetAllPins => None
  end.

Definition is_reset (op : Op) : bool :=
  match op with OpResetAllPins => true | _ => false end.

(** A PWM output on a fresh controller: pin 13 at duty 100, on channel 0. *)
Definition pin13_pwm : PinController :=
  (setPWM 13 100 (PinController_new quiet_world)).2.

(** One element of the ["pins"] array of [getStateJSON]. *)
Definition getStateJSON_pinObj (pair : Z * PinState) : list JsonDocument :=
  let '(pin, state) := pair in
  if isInitialized state then
    let pinObj := doc_set "pin" (JInt pin) [] in
    let pinObj := doc_set "value" (JInt (value state)) pinObj in
    let pinObj :=
      if PinMode_eqb (mode state) DIGITAL_OUTPUT then doc_set "mode" (JStr "digital") pinObj
      else if PinMode_eqb (mode state) PWM_OUTPUT then doc_set "mode" (JStr "pwm") pinObj
      else pinObj in
    [pinObj]
  else [].

(** [PinController::getStateJSON], before [serializeJson]: the elements of
    the ["pins"] array. *)
Definition getStateJSON (c : PinController) : list JsonDocument :=
  flat_map getStateJSON_pinObj (map_in_order (_pinStates c)).

(** The hardware calls [resetAllPins] may make: a pin written LOW, a PWM
    channel set to duty 0. *)
Definition is_switch_off (e : HwEvent) : Prop :=
  match e with
  | EvDigitalWrite _ v => v = 0
  | EvLedcWrite _ duty => duty = 0
  | _ => False
  end.

(** One reported record as [getStateJSON] renders it when its mode is one of
    the two output modes. *)
Definition pinObj_of (pair : Z * PinState) : JsonDocument :=
  [("pin"%string, JInt pair.1); ("value"%string, JInt (value pair.2));
   ("mode"%string,
    JStr (if PinMode_eqb (mode pair.2) DIGITAL_OUTPUT then "digital" else "pwm"))].

Definition pin_lt {V} (a b : Z * V) : Prop := a.1 < b.1.

(** ** Vocabulary for further properties of the parser *)

(** A rejection: type INVALID with a reason. *)
Definition rejected (cmd : Command) : Prop :=
  cmd_type cmd = INVALID /\ errorMessage cmd <> ""%string.

(** The text form of a command, as the help text shows it. *)
Definition text_of_command (cmd : Command) : string :=
  match cmd_type cmd with
  | SET | PWM =>
      commandTypeToString (cmd_type cmd) ++ " " ++ AString.ofInt (cmd_pin cmd)
      ++ " " ++ AString.ofInt (cmd_value cmd)
  | GET | TOGGLE =>
      commandTypeToString (cmd_type cmd) ++ " " ++ AString.ofInt (cmd_pin cmd)
  | t => commandTypeToString t
  end.

(** The well-formed commands, listed: every allowed pin with every value
    in range. *)
Definition all_well_formed_commands : list Command :=
  flat_map (fun pin =>
      map (fun v => mkCommand SET pin v "") [0; 1]
      ++ map (fun v => mkCommand PWM pin v "") (seqZ 0 256)
      ++ [mkCommand GET pin (-1) ""; mkCommand TOGGLE pin (-1) ""])
    Config.SAFE_PINS
  ++ map (fun t => mkCommand t (-1) (-1) "") [STATUS; RESET; RESET_PINS; HELP].

Definition Command_eqb (a b : Command) : bool :=
  String.eqb (commandTypeToString (cmd_type a)) (commandTypeToString (cmd_type b))
  && (cmd_pin a =? cmd_pin b) && (cmd_value a =? cmd_value b)
  && String.eqb (errorMessage a) (errorMessage b).

(** ** The rest of the supervisor *)

(** [WatchdogManager::suspend] *)
Definition suspend (w : WatchdogManager) : WatchdogManager :=
  if Config.ENABLE_HW_WATCHDOG && _hwWatchdogEnabled w then
    {| _lastFeed := _lastFeed w; _startTime := _startTime w;
       _errorCount := _errorCount w; _consecutiveErrors := _consecutiveErrors w;
       _lastError := _lastError w; _lastErrorTime := _lastErrorTime w;
       _hwWatchdogEnabled := _hwWatchdogEnabled w;
       _taskWatchdogEnabled := _taskWatchdogEnabled w;
       wdt_calls := wdt_calls w ++ [esp_task_wdt_delete] |}
  else w.

(** [WatchdogManager::resume]; [now] is what [millis()] returns. *)
Definition resume (now : Z) (w : WatchdogManager) : WatchdogManager :=
  if Config.ENABLE_HW_WATCHDOG && _hwWatchdogEnabled w then
    {| _lastFeed := now; _startTime := _startTime w;
       _errorCount := _errorCount w; _consecutiveErrors := _consecutiveErrors w;
       _lastError := _lastError w; _lastErrorTime := _lastErrorTime w;
       _hwWatchdogEnabled := _hwWatchdogEnabled w;
       _taskWatchdogEnabled := _taskWatchdogEnabled w;
       wdt_calls := wdt_calls w ++ [esp_task_wdt_add; esp_task_wdt_reset] |}
  else w.

(** [WatchdogManager::getUptimeSeconds] *)
Definition getUptimeSeconds (now : Z) (w : WatchdogManager) : Z :=
  wrap32 (now - _startTime w) / 1000.

(** [WatchdogManager::getErrorCount] *)
Definition getErrorCount (w : WatchdogManager) : Z := _errorCount w.

(** Every operation of the supervisor as a step. *)
Inductive SupervisorCall :=
  | DoFeed (now : Z)
  | DoRegisterError (message : string) (now : Z)
  | DoClearErrors
  | DoSuspend
  | DoResume (now : Z).

Definition supervisor_step (w : WatchdogManager) (call : SupervisorCall) : Outcome :=
  match call with
  | DoFeed now => Returns (feed now w)
  | DoRegisterError message now => registerError message now w
  | DoClearErrors => Returns (clearErrors w)
  | DoSuspend => Returns (suspend w)
  | DoResume now => Returns (resume now w)
  end.

(** Run the calls in order; [None] when one of them ended in [restart]. *)
Fixpoint supervisor_run (calls : list SupervisorCall) (w : WatchdogManager)
    : option WatchdogManager :=
  match calls with
  | [] => Some w
  | call :: rest =>
      match supervisor_step w call with
      | Returns w' => supervisor_run rest w'
      | Restarts _ _ => None
      end
  end.

Definition registered (call : SupervisorCall) : bool :=
  match call with DoRegisterError _ _ => true | _ => false end.

Definition count_registered (calls : list SupervisorCall) : Z :=
  Z.of_nat (length (filter (fun call => registered call = true) calls)).

(** ** NetworkServer: the stream clients and the datagram channel

    A [WiFiClient] as the server sees it: whether the handle is set (its
    conversion to [bool]), whether the connection is up, the lines waiting to
    be read, and what has been sent to it. *)

Inductive Sent :=
  | SentLine (text : string)
  | SentReply (r : Reply).

Record WiFiClient := mkWiFiClient {
  is_set : bool;
  connected : bool;
  inbox : list string;
  sent : list Sent
}.

Definition MAX_TCP_CLIENTS : nat := 4.
Definition COMMAND_BUFFER_SIZE : nat := 512.

(** [WiFiClient()] *)
Definition WiFiClient_new : WiFiClient :=
  {| is_set := false; connected := false; inbox := []; sent := [] |}.

(** [client.stop()] *)
Definition client_stop (cl : WiFiClient) : WiFiClient :=
  {| is_set := false; connected := false; inbox := []; sent := sent cl |}.

(** [client.println(x)] *)
Definition client_println (x : Sent) (cl : WiFiClient) : WiFiClient :=
  {| is_set := is_set cl; connected := connected cl; inbox := inbox cl;
     sent := sent cl ++ [x] |}.

(** The test of the accept loop: [!_tcpClients[i] || !_tcpClients[i].connected()] *)
Definition slot_free (cl : WiFiClient) : bool := negb (is_set cl) || negb (connected cl).

Definition welcomed (newcomer : WiFiClient) : WiFiClient :=
  client_println (SentLine "Type HELP for command list")
    (client_println (SentLine "ESP32 Pin Controller Ready") newcomer).

(** The first loop of [handleTCPClients]: put the new client into the first
    free slot; [None] when there is none. *)
Fixpoint accept_into (newcomer : WiFiClient) (slots : list WiFiClient)
    : option (list WiFiClient) :=
  match slots with
  | [] => None
  | cl :: rest =>
      if slot_free cl then Some (welcomed newcomer :: rest)
      else option_map (cons cl) (accept_into newcomer rest)
  end.

Section Multiplexer.

Context (lib : JsonLibrary).

(** The body of the second loop of [handleTCPClients] for one slot. *)
Definition serve_client (cl : WiFiClient) (c : PinController) : WiFiClient * PinController :=
  if is_set cl && connected cl then
    match inbox cl with
    | line :: waiting =>
        let command := AString.trim line in
        let cl := {| is_set := is_set cl; connected := connected cl;
                     inbox := waiting; sent := sent cl |} in
        if 0 <? AString.len command then
          let '(response, c) := processCommand lib command c in
          (client_println (SentReply response) cl, c)
        else (cl, c)
    | [] => (cl, c)
    end
  else if is_set cl then (client_stop cl, c)
  else (cl, c).

Fixpoint serve_clients (slots : list WiFiClient) (c : PinController)
    : list WiFiClient * PinController :=
  match slots with
  | [] => ([], c)
  | cl :: rest =>
      let '(cl, c) := serve_client cl c in
      let '(rest, c) := serve_clients rest c in
      (cl :: rest, c)
  end.

(** [NetworkServer::handleTCPClients].  [incoming] is the connection waiting
    at the server, if [hasClient()]; the second component of the result is
    the client that was turned away, if one was. *)
Definition handleTCPClients (incoming : option WiFiClient) (slots : list WiFiClient)
    (c : PinController) : list WiFiClient * option WiFiClient * PinController :=
  let '(slots, turned_away) :=
    match incoming with
    | Some newcomer =>
        match accept_into newcomer slots with
        | Some slots' => (slots', None)
        | None =>
            (slots, Some (client_stop (client_println (SentLine "ERROR: Server full") newcomer)))
        end
    | None => (slots, None)
    end in
  let '(slots, c) := serve_clients slots c in
  (slots, turned_away, c).

(** The [char] buffer read as a C string: up to the first NUL. *)
Fixpoint c_string (l : list Ascii.ascii) : list Ascii.ascii :=
  match l with
  | [] => []
  | a :: rest => if Ascii.eqb a (Ascii.ascii_of_N 0) then [] else a :: c_string rest
  end.

(** [NetworkServer::handleUDP].  [packet] is the datagram waiting, if any;
    the result is the response sent back to its sender, if one is sent. *)
Definition handleUDP (packet : option string) (c : PinController)
    : option Reply * PinController :=
  match packet with
  | Some data =>
      if 0 <? AString.len data then
        let buffer := take (COMMAND_BUFFER_SIZE - 1) (String.list_ascii_of_string data) in
        let command := AString.trim (String.string_of_list_ascii (c_string buffer)) in
        let '(response, c) := processCommand lib command c in
        (Some response, c)
      else (None, c)
  | None => (None, c)
  end.

End Multiplexer.

(** [NetworkServer::getConnectedClients] *)
Definition getConnectedClients (slots : list WiFiClient) : nat :=
  length (filter (fun cl => is_set cl && connected cl = true) slots).

(** What one tick may do to one client: nothing, or stop it, or take its
    first waiting line, with or without a reply. *)
Inductive served (cl : WiFiClient) : WiFiClient -> Prop :=
  | served_idle : served cl cl
  | served_stopped :
      is_set cl = true -> connected cl = false -> served cl (client_stop cl)
  | served_blank line waiting :
      is_set cl = true -> connected cl = true ->
      inbox cl = line :: waiting -> AString.len (AString.trim line) = 0 ->
      served cl {| is_set := true; connected := true; inbox := waiting; sent := sent cl |}
  | served_command line waiting r :
      is_set cl = true -> connected cl = true ->
      inbox cl = line :: waiting -> AString.len (AString.trim line) <> 0 ->
      served cl {| is_set := true; connected := true; inbox := waiting;
                   sent := sent cl ++ [SentReply r] |}.

(** A connected client with nothing to say. *)
Definition idle_client : WiFiClient :=
  {| is_set := true; connected := true; inbox := []; sent := [] |}.

(** ** WebServer: the pin endpoints

    A request is the map of the parameters [hasParam]/[getParam] see; a
    response is the status code and the document sent. *)

(** [WebServer::sendJSONResponse] *)
Definition sendJSONResponse (code : Z) (success : bool) (message data : string)
    : Z * JsonDocument :=
  let doc := doc_set "success" (JBool success) [] in
  let doc := doc_set "message" (JStr message) doc in
  let doc := if 0 <? AString.len data then doc_set "data" (JStr data) doc else doc in
  (code, doc).

(** [WebServer::handleSetPin] *)
Definition handleSetPin (params : gmap string string) (c : PinController)
    : (Z * JsonDocument) * PinController :=
  match params !! "pin"%string, params !! "value"%string with
  | Some pinStr, Some valueStr =>
      let pin := AString.toInt pinStr in
      let v := AString.toInt valueStr in
      let '(ok, c) := setDigital pin v c in
      if ok then (sendJSONResponse 200 true "Pin set successfully" "", c)
      else (sendJSONResponse 400 false "Failed to set pin" "", c)
  | _, _ => (sendJSONResponse 400 false "Missing pin or value parameter" "", c)
  end.

(** [WebServer::handleGetPin] *)
Definition handleGetPin (params : gmap string string) (c : PinController)
    : (Z * JsonDocument) * PinController :=
  match params !! "pin"%string with
  | None => (sendJSONResponse 400 false "Missing pin parameter" "", c)
  | Some pinStr =>
      let pin := AString.toInt pinStr in
      if negb (isPinConfigured pin c) then (sendJSONResponse 400 false "Pin not configured" "", c)
      else
        let mode := getPinMode pin c in
        let '(v, c) :=
          if PinMode_eqb mode PWM_OUTPUT then getPWM pin c else getDigital pin c in
        let doc := doc_set "success" (JBool true) [] in
        let doc := doc_set "pin" (JInt pin) doc in
        let doc := doc_set "value" (JInt v) doc in
        let doc := doc_set "mode"
                     (JStr (if PinMode_eqb mode PWM_OUTPUT then "PWM" else "DIGITAL")) doc in
        ((200, doc), c)
  end.


(** [WebServer::handleTogglePin] *)
Definition handleTogglePin (params : gmap string string) (c : PinController)
    : (Z * JsonDocument) * PinController :=
  match params !! "pin"%string with
  | None => (sendJSONResponse 400 false "Missing pin parameter" "", c)
  | Some pinStr =>
      let pin := AString.toInt pinStr in
      let '(ok, c) := toggle pin c in
      if ok then
        let '(newValue, c) := getDigital pin c in
        let doc := doc_set "success" (JBool true) [] in
        let doc := doc_set "message" (JStr "Pin toggled successfully") doc in
        let doc := doc_set "newValue" (JInt newValue) doc in
        ((200, doc), c)
      else (sendJSONResponse 400 false "Failed to toggle pin" "", c)
  end.

(** [WebServer::handleSetPWM] *)
Definition handleSetPWM (params : gmap string string) (c : PinController)
    : (Z * JsonDocument) * PinController :=
  match params !! "pin"%string, params !! "value"%string with
  | Some pinStr, Some valueStr =>
      let pin := AString.toInt pinStr in
      let v := AString.toInt valueStr in
      if (v <? 0) || (255 <? v) then (sendJSONResponse 400 false "PWM value must be 0-255" "", c)
      else
        let '(ok, c) := setPWM pin v c in
        if ok then (sendJSONResponse 200 true "PWM set successfully" "", c)
        else (sendJSONResponse 400 false "Failed to set PWM" "", c)
  | _, _ => (sendJSONResponse 400 false "Missing pin or value parameter" "", c)
  end.

(** ** WiFiManager::findBestNetwork

    [ssids] are the names of the configured networks in order of preference
    ([WIFI_NETWORKS[i].ssid]); [scan] is the scan result, name and signal
    strength for each network found. *)

Definition WIFI_NETWORK_SSIDS : list string :=
  ["Meta-Soziales-Netzwerk"; "JUSTUS'"; "nufology"]%string.

(** The inner loop over the scan results, for configured network [i]. *)
Definition scan_for (i : Z) (ssid : string) (scan : list (string * Z)) (best : Z * Z)
    : Z * Z :=
  fold_left (fun (best : Z * Z) (found : string * Z) =>
               if String.eqb found.1 ssid then
                 if best.2 <? found.2 then (i, found.2) else best
               else best)
            scan best.

(** The outer loop over the configured networks, from index [i] on;
    [best] is [(bestNetwork, bestRSSI)]. *)
Fixpoint networks_from (i : Z) (ssids : list string) (scan : list (string * Z))
    (best : Z * Z) : Z * Z :=
  match ssids with
  | [] => best
  | ssid :: rest => networks_from (i + 1) rest scan (scan_for i ssid scan best)
  end.

(** [WiFiManager::findBestNetwork] *)
Definition findBestNetwork (ssids : list string) (scan : list (string * Z)) : Z :=
  if Z.of_nat (length scan) =? 0 then -1
  else (networks_from 0 ssids scan (-1, -100)).1.

(** Configured network number [i] is [ssid] and was found with strength
    [rssi]. *)
Definition visible (ssids : list string) (scan : list (string * Z))
    (i : nat) (ssid : string) (rssi : Z) : Prop :=
  ssids !! i = Some ssid /\ (ssid, rssi) ∈ scan.

(** * Properties *)

(** ** Maps with insert-on-access *)

Lemma map_subscript_lookup {V} (d : V) (k j : Z) (m : gmap Z V) :
  map_subscript d k m !! j =
  if decide (k = j) then Some (default d (m !! k)) else m !! j.
Proof.
  unfold map_subscript. destruct (m !! k) as [x|] eqn:E.
  - case_decide; subst; simpl; congruence.
  - rewrite lookup_insert. case_decide; reflexivity.
Qed.

Lemma map_subscript_present {V} (d : V) (k : Z) (m : gmap Z V) :
  is_Some (m !! k) -> map_subscript d k m = m.
Proof. intros [x E]. unfold map_subscript. now rewrite E. Qed.

Lemma alter_const_subscript {V} (d x : V) (k : Z) (m : gmap Z V) :
  alter (fun _ => x) k (map_subscript d k m) = <[k := x]> m.
Proof.
  apply map_eq. intros j.
  rewrite lookup_alter, lookup_insert, !map_subscript_lookup.
  repeat case_decide; try congruence; reflexivity.
Qed.

Lemma alter_const_insert {V} (f : V -> V) (x : V) (k : Z) (m : gmap Z V) :
  alter f k (<[k := x]> m) = <[k := f x]> m.
Proof.
  apply map_eq. intros j. rewrite lookup_alter, !lookup_insert.
  repeat case_decide; try congruence; reflexivity.
Qed.

Lemma insert_subscript {V} (d x : V) (k : Z) (m : gmap Z V) :
  <[k := x]> (map_subscript d k m) = <[k := x]> m.
Proof.
  apply map_eq. intros j. rewrite !lookup_insert, map_subscript_lookup.
  repeat case_decide; try congruence; reflexivity.
Qed.

(** ** The allowed pin set *)

Lemma isValidPin_from_In (pins : list Z) (pin : Z) :
  isValidPin_from pins pin = true <-> In pin pins.
Proof.
  induction pins as [|p rest IH]; simpl.
  - split; [discriminate | tauto].
  - destruct (Z.eqb_spec p pin) as [->|Hne].
    + split; auto.
    + rewrite IH. split; [auto | intros [?|?]; [congruence | assumption]].
Qed.

Lemma isValidPin_range (pin : Z) : isValidPin pin = true -> 4 <= pin <= 33.
Proof.
  unfold isValidPin. rewrite isValidPin_from_In. unfold Config.SAFE_PINS. simpl.
  intros H. repeat (destruct H as [<-|H]; [lia|]). contradiction.
Qed.

Lemma PinMode_eqb_eq (a b : PinMode) : PinMode_eqb a b = true <-> a = b.
Proof. destruct a, b; simpl; split; congruence. Qed.

Lemma in_mode_Some (m : PinMode) (pin : Z) (c : PinController) :
  in_mode m pin c = true <->
  exists v, _pinStates c !! pin = Some {| mode := m; value := v; isInitialized := true |}.
Proof.
  unfold in_mode. split.
  - destruct (_pinStates c !! pin) as [[m' v i]|]; [|discriminate]. simpl.
    rewrite andb_true_iff, PinMode_eqb_eq. intros [-> ->]. eauto.
  - intros [v ->]. simpl. now apply PinMode_eqb_eq.
Qed.

Lemma configureDigitalOutput_eq (pin : Z) (c : PinController) :
  configureDigitalOutput pin c =
  (true, {| _pinStates := <[pin := digital 0]> (_pinStates c);
            _nextPWMChannel := _nextPWMChannel c;
            _pinToPWMChannel := _pinToPWMChannel c;
            hw := digitalWrite pin LOW (pinMode pin OUTPUT (hw c)) |}).
Proof.
  unfold configureDigitalOutput, pinStates_subscript, with_pinStates, with_hw. simpl.
  now rewrite alter_const_subscript.
Qed.

(** [setDigital] on an allowed pin with value 0 or 1 always succeeds and
    leaves exactly one changed record: the pin's, a digital output holding
    the value. *)
Lemma setDigital_eq (pin v : Z) (c : PinController) :
  isValidPin pin = true -> v = 0 \/ v = 1 ->
  exists h, setDigital pin v c =
    (true, {| _pinStates := <[pin := digital v]> (_pinStates c);
              _nextPWMChannel := _nextPWMChannel c;
              _pinToPWMChannel := _pinToPWMChannel c;
              hw := h |})
    /\ filter (fun e => is_read e = true) (hw_log h)
       = filter (fun e => is_read e = true) (hw_log (hw c)).
Proof.
  intros Hpin Hv. unfold setDigital. cbv zeta.
  rewrite Hpin, configureDigitalOutput_eq.
  replace (negb (v =? 0) && negb (v =? 1)) with false
    by (destruct Hv as [-> | ->]; reflexivity).
  unfold pinState_ref, pinStates_subscript, set_state_value, with_pinStates, with_hw.
  cbn [negb _pinStates _nextPWMChannel _pinToPWMChannel hw].
  rewrite map_subscript_lookup, decide_True by reflexivity.
  destruct (_pinStates c !! pin) as [[m v0 i]|] eqn:E; simpl.
  - destruct (negb i || negb (PinMode_eqb m DIGITAL_OUTPUT)) eqn:Hcfg; simpl.
    + rewrite insert_subscript, alter_const_insert.
      eexists; split; [reflexivity|].
      cbn. rewrite !filter_app. cbn. now rewrite !app_nil_r.
    + apply orb_false_iff in Hcfg as [Hi Hm].
      apply negb_false_iff in Hi, Hm. apply PinMode_eqb_eq in Hm. subst i m.
      rewrite map_subscript_present by (rewrite E; eauto).
      eexists; split.
      * f_equal. f_equal. apply map_eq. intros j.
        rewrite lookup_alter, lookup_insert.
        case_decide; subst; [now rewrite E|reflexivity].
      * cbn. rewrite filter_app. cbn. now rewrite app_nil_r.
  - simpl.
    rewrite insert_subscript, alter_const_insert.
    eexists; split; [reflexivity|].
    cbn. rewrite !filter_app. cbn. now rewrite !app_nil_r.
Qed.

(** ** Reads *)

Lemma getDigital_cached (pin : Z) (c : PinController) (state : PinState) :
  isValidPin pin = true ->
  _pinStates c !! pin = Some state ->
  isInitialized state = true -> mode state = DIGITAL_OUTPUT ->
  getDigital pin c = (value state, c).
Proof.
  intros Hpin E Hi Hm. unfold getDigital. rewrite Hpin, E, Hi, Hm. reflexivity.
Qed.

Lemma getDigital_input (pin : Z) (c : PinController) :
  isValidPin pin = true -> in_mode DIGITAL_OUTPUT pin c = false ->
  getDigital pin c = read_as_input pin c.
Proof.
  intros Hpin Hm. unfold getDigital, in_mode in *. rewrite Hpin. simpl.
  destruct (_pinStates c !! pin) as [state|]; [|reflexivity]. now rewrite Hm.
Qed.

(** What [read_as_input] does: two hardware events, one of them a read;
    the store is not touched. *)
Lemma read_as_input_eq (pin : Z) (c : PinController) :
  let level := hw_world (hw c) (hw_log (hw c) ++ [EvPinMode pin INPUT]) pin in
  read_as_input pin c =
  (Z.b2z level,
   {| _pinStates := _pinStates c; _nextPWMChannel := _nextPWMChannel c;
      _pinToPWMChannel := _pinToPWMChannel c;
      hw := {| hw_world := hw_world (hw c);
               hw_log := hw_log (hw c) ++ [EvPinMode pin INPUT; EvDigitalRead pin level] |} |}).
Proof.
  unfold read_as_input, digitalRead, with_hw, pinMode, hw_emit. simpl.
  rewrite <- app_assoc. reflexivity.
Qed.

Lemma getDigital_store (pin : Z) (c : PinController) :
  store (getDigital pin c).2 = store c.
Proof.
  unfold getDigital. destruct (negb (isValidPin pin)); [reflexivity|].
  destruct (_pinStates c !! pin) as [state|].
  - destruct (isInitialized state && PinMode_eqb (mode state) DIGITAL_OUTPUT);
      [reflexivity|]. now rewrite read_as_input_eq.
  - now rewrite read_as_input_eq.
Qed.

Lemma getPWM_unchanged (pin : Z) (c : PinController) : (getPWM pin c).2 = c.
Proof.
  unfold getPWM. destruct (negb (isValidPin pin)); [reflexivity|].
  destruct (_pinStates c !! pin) as [state|]; [|reflexivity].
  now destruct (isInitialized state && PinMode_eqb (mode state) PWM_OUTPUT).
Qed.

(** ** Pins outside the allowed set *)

Lemma setDigital_invalid (pin v : Z) (c : PinController) :
  isValidPin pin = false -> setDigital pin v c = (false, c).
Proof. intros H. unfold setDigital. now rewrite H. Qed.

Lemma getDigital_invalid (pin : Z) (c : PinController) :
  isValidPin pin = false -> getDigital pin c = (-1, c).
Proof. intros H. unfold getDigital. now rewrite H. Qed.

Lemma toggle_invalid (pin : Z) (c : PinController) :
  isValidPin pin = false -> toggle pin c = (false, c).
Proof. intros H. unfold toggle. now rewrite H. Qed.

Lemma setPWM_invalid (pin v : Z) (c : PinController) :
  isValidPin pin = false -> setPWM pin v c = (false, c).
Proof. intros H. unfold setPWM. now rewrite H. Qed.

Lemma getPWM_invalid (pin : Z) (c : PinController) :
  isValidPin pin = false -> getPWM pin c = (-1, c).
Proof. intros H. unfold getPWM. now rewrite H. Qed.

(** ** PWM *)

Lemma configurePWMOutput_full (pin : Z) (c : PinController) :
  16 <= _nextPWMChannel c -> configurePWMOutput pin c = (false, c).
Proof.
  intros H. unfold configurePWMOutput.
  destruct (Z.leb_spec 16 (_nextPWMChannel c)); [reflexivity|lia].
Qed.

Lemma configurePWMOutput_free (pin : Z) (c : PinController) :
  _nextPWMChannel c < 16 ->
  configurePWMOutput pin c =
  (true, {| _pinStates := <[pin := pwm 0]> (_pinStates c);
            _nextPWMChannel := _nextPWMChannel c + 1;
            _pinToPWMChannel := <[pin := _nextPWMChannel c]> (_pinToPWMChannel c);
            hw := ledcWrite (_nextPWMChannel c) 0
                    (ledcAttachPin pin (_nextPWMChannel c)
                       (ledcSetup (_nextPWMChannel c) PWM_FREQUENCY PWM_RESOLUTION (hw c))) |}).
Proof.
  intros H. unfold configurePWMOutput.
  destruct (Z.leb_spec 16 (_nextPWMChannel c)); [lia|].
  unfold pinStates_subscript, with_pinStates, with_hw, with_pinToPWMChannel. simpl.
  now rewrite alter_const_subscript.
Qed.

Lemma in_mode_false_cond (m : PinMode) (pin : Z) (c : PinController) :
  in_mode m pin c = false ->
  negb (isInitialized (default PinState_new (_pinStates c !! pin)))
  || negb (PinMode_eqb (mode (default PinState_new (_pinStates c !! pin))) m) = true.
Proof.
  unfold in_mode. destruct (_pinStates c !! pin) as [[m' v i]|]; simpl.
  - intros H. rewrite <- negb_andb. now rewrite H.
  - reflexivity.
Qed.

(** The pool is exhausted: [setPWM] on a pin that is not a PWM output
    fails.  Allocator, channel map and hardware are as before; of the
    records, only the element [_pinStates[pin]] has been touched by the
    subscript. *)
Lemma setPWM_exhausted (pin v : Z) (c : PinController) :
  isValidPin pin = true -> pwm_value_ok v = true ->
  in_mode PWM_OUTPUT pin c = false -> 16 <= _nextPWMChannel c ->
  setPWM pin v c =
  (false, {| _pinStates := map_subscript PinState_new pin (_pinStates c);
             _nextPWMChannel := _nextPWMChannel c;
             _pinToPWMChannel := _pinToPWMChannel c;
             hw := hw c |}).
Proof.
  intros Hpin Hv Hm Hfull. unfold setPWM. cbv zeta.
  unfold pwm_value_ok in Hv. apply negb_true_iff in Hv. rewrite Hpin, Hv.
  rewrite configurePWMOutput_full by exact Hfull.
  unfold pinState_ref, pinStates_subscript, with_pinStates. simpl.
  rewrite map_subscript_lookup, decide_True by reflexivity. simpl.
  now rewrite (in_mode_false_cond _ _ _ Hm).
Qed.

(** The same, for a pin that already has a record (a digital output, say):
    the controller comes back exactly as it was. *)
Lemma setPWM_exhausted_with_record (pin v : Z) (c : PinController) :
  isValidPin pin = true -> pwm_value_ok v = true ->
  in_mode PWM_OUTPUT pin c = false -> 16 <= _nextPWMChannel c ->
  is_Some (_pinStates c !! pin) ->
  setPWM pin v c = (false, c).
Proof.
  intros Hpin Hv Hm Hfull Hrec.
  rewrite setPWM_exhausted by assumption.
  rewrite map_subscript_present by exact Hrec. now destruct c.
Qed.

(** A free channel is left: [setPWM] on a pin that is not a PWM output
    hands it channel [_nextPWMChannel]. *)
Lemma setPWM_alloc (pin v : Z) (c : PinController) :
  isValidPin pin = true -> pwm_value_ok v = true ->
  in_mode PWM_OUTPUT pin c = false -> _nextPWMChannel c < 16 ->
  exists h, setPWM pin v c =
  (true, {| _pinStates := <[pin := pwm v]> (_pinStates c);
            _nextPWMChannel := _nextPWMChannel c + 1;
            _pinToPWMChannel := <[pin := _nextPWMChannel c]> (_pinToPWMChannel c);
            hw := h |}).
Proof.
  intros Hpin Hv Hm Hfree. unfold setPWM. cbv zeta.
  unfold pwm_value_ok in Hv. apply negb_true_iff in Hv. rewrite Hpin, Hv.
  rewrite configurePWMOutput_free by exact Hfree.
  unfold pinState_ref, pinStates_subscript, set_state_value, with_pinStates,
    with_pinToPWMChannel, with_hw. simpl.
  rewrite map_subscript_lookup, decide_True by reflexivity. simpl.
  rewrite (in_mode_false_cond _ _ _ Hm). simpl.
  rewrite insert_subscript, alter_const_insert.
  rewrite map_subscript_present by (rewrite lookup_insert_eq; eauto).
  eexists. reflexivity.
Qed.

(** The pin already is a PWM output: only its value changes. *)
Lemma setPWM_again (pin v v0 : Z) (c : PinController) :
  isValidPin pin = true -> pwm_value_ok v = true ->
  _pinStates c !! pin = Some (pwm v0) ->
  exists h, setPWM pin v c =
  (true, {| _pinStates := <[pin := pwm v]> (_pinStates c);
            _nextPWMChannel := _nextPWMChannel c;
            _pinToPWMChannel := map_subscript 0 pin (_pinToPWMChannel c);
            hw := h |}).
Proof.
  intros Hpin Hv E. unfold setPWM. cbv zeta.
  unfold pwm_value_ok in Hv. apply negb_true_iff in Hv. rewrite Hpin, Hv.
  unfold pinState_ref, pinStates_subscript, set_state_value, with_pinStates,
    with_pinToPWMChannel, with_hw. simpl.
  rewrite map_subscript_lookup, decide_True by reflexivity. rewrite E. simpl.
  rewrite map_subscript_present by (rewrite E; eauto).
  eexists. f_equal. f_equal. apply map_eq. intros j.
  rewrite lookup_alter, lookup_insert. case_decide; subst; [now rewrite E|reflexivity].
Qed.

Lemma resetAllPins_store (c : PinController) :
  (resetAllPins c).1 = true /\ store (resetAllPins c).2 = (∅, 0, ∅).
Proof. split; reflexivity. Qed.

(** ** The store invariant *)

Lemma store_inv_new (world : list HwEvent -> Z -> bool) :
  store_inv (PinController_new world).
Proof.
  unfold store_inv. simpl.
  split; try (intros ? ?; rewrite lookup_empty; discriminate).
  - lia.
  - rewrite map_size_empty. lia.
Qed.

Lemma store_inv_store (c c' : PinController) :
  store c' = store c -> store_inv c -> store_inv c'.
Proof. unfold store, store_inv. intros [= -> -> ->]. auto. Qed.

Lemma store_ok_reset : store_ok ∅ 0 ∅.
Proof. exact (store_inv_new (fun _ _ => false)). Qed.

Lemma store_ok_digital (s : gmap Z PinState) (n : Z) (ch : gmap Z Z) (pin v : Z) :
  isValidPin pin = true -> v = 0 \/ v = 1 ->
  store_ok s n ch -> store_ok (<[pin := digital v]> s) n ch.
Proof.
  intros Hpin Hv [Hn Hr Hi Hc Hp Hd Hs]. split; auto.
  - intros p v0. rewrite lookup_insert. case_decide; [discriminate|]. apply Hp.
  - intros p v0. rewrite lookup_insert. case_decide; [|apply Hd].
    intros [= <-]. exact Hv.
  - intros p st. rewrite lookup_insert. case_decide; [|apply Hs].
    subst p. intros [= <-]. split; [exact Hpin|]. right. left. eauto.
Qed.

Lemma store_ok_placeholder (s : gmap Z PinState) (n : Z) (ch : gmap Z Z) (pin : Z) :
  isValidPin pin = true ->
  store_ok s n ch -> store_ok (map_subscript PinState_new pin s) n ch.
Proof.
  intros Hpin Hok. unfold map_subscript.
  destruct (s !! pin) eqn:E; [exact Hok|].
  destruct Hok as [Hn Hr Hi Hc Hp Hd Hs]. split; auto.
  - intros p v0. rewrite lookup_insert. case_decide; [discriminate|]. apply Hp.
  - intros p v0. rewrite lookup_insert. case_decide; [discriminate|]. apply Hd.
  - intros p st. rewrite lookup_insert. case_decide; [|apply Hs].
    subst p. intros [= <-]. split; [exact Hpin|]. now left.
Qed.

Lemma store_ok_pwm_again (s : gmap Z PinState) (n : Z) (ch : gmap Z Z) (pin v v0 : Z) :
  isValidPin pin = true -> pwm_value_ok v = true ->
  s !! pin = Some (pwm v0) ->
  store_ok s n ch -> store_ok (<[pin := pwm v]> s) n (map_subscript 0 pin ch).
Proof.
  intros Hpin Hv E Hok.
  assert (Hch : is_Some (ch !! pin)) by (destruct Hok as [_ _ _ _ Hp _ _]; now apply (Hp pin v0)).
  rewrite (map_subscript_present _ _ _ Hch).
  destruct Hok as [Hn Hr Hi Hc Hp Hd Hs]. split; auto.
  - intros p v1. rewrite lookup_insert. case_decide; [|apply Hp].
    subst p. intros [= <-]. split; [exact Hch|].
    unfold pwm_value_ok in Hv. apply negb_true_iff, orb_false_iff in Hv as [H1 H2].
    apply Z.ltb_ge in H1, H2. lia.
  - intros p v1. rewrite lookup_insert. case_decide; [discriminate|]. apply Hd.
  - intros p st. rewrite lookup_insert. case_decide; [|apply Hs].
    subst p. intros [= <-]. split; [exact Hpin|]. right. right. eauto.
Qed.

Lemma store_ok_pwm_alloc (s : gmap Z PinState) (n : Z) (ch : gmap Z Z) (pin v : Z) :
  isValidPin pin = true -> pwm_value_ok v = true -> n < 16 ->
  store_ok s n ch -> store_ok (<[pin := pwm v]> s) (n + 1) (<[pin := n]> ch).
Proof.
  intros Hpin Hv Hfree [Hn Hr Hi Hc Hp Hd Hs]. split.
  - lia.
  - intros p k. rewrite lookup_insert. case_decide.
    + intros [= <-]. lia.
    + intros H'. apply Hr in H'. lia.
  - intros p q k. rewrite !lookup_insert. repeat case_decide; subst.
    + reflexivity.
    + intros [= <-] H'. apply Hr in H'. lia.
    + intros H' [= <-]. apply Hr in H'. lia.
    + apply Hi.
  - rewrite map_size_insert. destruct (ch !! pin); unfold id; lia.
  - intros p v1. rewrite !lookup_insert. case_decide.
    + intros [= <-]. split; [eauto|].
      unfold pwm_value_ok in Hv. apply negb_true_iff, orb_false_iff in Hv as [H1 H2].
      apply Z.ltb_ge in H1, H2. lia.
    + apply Hp.
  - intros p v1. rewrite lookup_insert. case_decide; [discriminate|]. apply Hd.
  - intros p st. rewrite lookup_insert. case_decide; [|apply Hs].
    subst p. intros [= <-]. split; [exact Hpin|]. right. right. eauto.
Qed.

Lemma setDigital_bad_value (pin v : Z) (c : PinController) :
  v <> 0 -> v <> 1 -> setDigital pin v c = (false, c).
Proof.
  intros H0 H1. unfold setDigital. destruct (negb (isValidPin pin)); [reflexivity|].
  destruct (Z.eqb_spec v 0); [contradiction|].
  destruct (Z.eqb_spec v 1); [contradiction|]. reflexivity.
Qed.

Lemma setPWM_bad_value (pin v : Z) (c : PinController) :
  pwm_value_ok v = false -> setPWM pin v c = (false, c).
Proof.
  intros Hv. unfold setPWM. destruct (negb (isValidPin pin)); [reflexivity|].
  unfold pwm_value_ok in Hv. apply negb_false_iff in Hv. now rewrite Hv.
Qed.

Lemma setDigital_inv (pin v : Z) (c : PinController) :
  store_inv c -> store_inv (setDigital pin v c).2.
Proof.
  intros Hinv. destruct (isValidPin pin) eqn:Hpin;
    [|now rewrite setDigital_invalid].
  destruct (decide (v = 0 \/ v = 1)) as [Hv|Hv].
  - destruct (setDigital_eq pin v c Hpin Hv) as (h & -> & _).
    apply store_ok_digital; assumption.
  - rewrite setDigital_bad_value by tauto. exact Hinv.
Qed.

Lemma getDigital_inv (pin : Z) (c : PinController) :
  store_inv c -> store_inv (getDigital pin c).2.
Proof. apply store_inv_store, getDigital_store. Qed.

Lemma toggle_inv (pin : Z) (c : PinController) :
  store_inv c -> store_inv (toggle pin c).2.
Proof.
  intros Hinv. unfold toggle. destruct (negb (isValidPin pin)); [exact Hinv|].
  pose proof (getDigital_inv pin c Hinv) as Hg.
  destruct (getDigital pin c) as [cv c1]. simpl in Hg.
  destruct (cv <? 0); [exact Hg|]. now apply setDigital_inv.
Qed.

Lemma setPWM_inv (pin v : Z) (c : PinController) :
  store_inv c -> store_inv (setPWM pin v c).2.
Proof.
  intros Hinv. destruct (isValidPin pin) eqn:Hpin; [|now rewrite setPWM_invalid].
  destruct (pwm_value_ok v) eqn:Hv; [|now rewrite setPWM_bad_value].
  destruct (in_mode PWM_OUTPUT pin c) eqn:Hm.
  - apply in_mode_Some in Hm as [v0 E].
    destruct (setPWM_again pin v v0 c Hpin Hv E) as [h ->].
    now apply store_ok_pwm_again with v0.
  - destruct (Z_lt_le_dec (_nextPWMChannel c) 16) as [Hfree|Hfull].
    + destruct (setPWM_alloc pin v c Hpin Hv Hm Hfree) as [h ->].
      now apply store_ok_pwm_alloc.
    + rewrite setPWM_exhausted by assumption.
      now apply store_ok_placeholder.
Qed.

Lemma apply_op_inv (c : PinController) (op : Op) :
  store_inv c -> store_inv (apply_op c op).
Proof.
  intros Hinv. destruct op; simpl.
  - now apply setDigital_inv.
  - now apply getDigital_inv.
  - now apply toggle_inv.
  - now apply setPWM_inv.
  - now rewrite getPWM_unchanged.
  - exact store_ok_reset.
Qed.

Lemma run_ops_inv (ops : list Op) (c : PinController) :
  store_inv c -> store_inv (run_ops ops c).
Proof.
  revert c. induction ops as [|op ops IH]; intros c Hinv; [exact Hinv|].
  simpl. apply IH. now apply apply_op_inv.
Qed.

Lemma reachable_inv (c : PinController) : reachable c -> store_inv c.
Proof. intros (world & ops & ->). apply run_ops_inv, store_inv_new. Qed.

Lemma reachable_new (world : list HwEvent -> Z -> bool) :
  reachable (PinController_new world).
Proof. exists world, []. reflexivity. Qed.

Lemma reachable_step (c : PinController) (op : Op) :
  reachable c -> reachable (apply_op c op).
Proof.
  intros (world & ops & ->). exists world, (ops ++ [op]).
  unfold run_ops. now rewrite fold_left_app.
Qed.

Lemma getDigital_bit (pin : Z) (c : PinController) :
  store_inv c -> isValidPin pin = true ->
  (getDigital pin c).1 = 0 \/ (getDigital pin c).1 = 1.
Proof.
  intros Hinv Hpin.
  destruct (in_mode DIGITAL_OUTPUT pin c) eqn:Hm.
  - apply in_mode_Some in Hm as [v E].
    rewrite (getDigital_cached pin c _ Hpin E) by reflexivity. simpl.
    destruct Hinv as [_ _ _ _ _ Hd _]. now apply (Hd pin).
  - rewrite getDigital_input, read_as_input_eq by assumption. simpl.
    destruct (hw_world _ _ _); auto.
Qed.

(** ** Pin state store: main results *)

(** C10: [getDigital] and [getPWM] never change the store, for any pin and
    any state: records, allocator and channel map after the call are those
    before it.  [getPWM] changes nothing at all; [getDigital] either changes
    nothing, or (the input-read path) appends to the hardware log the switch
    of the pin to input and the read. *)
Theorem C10_reads_leave_store_unchanged (pin : Z) (c : PinController) :
  store (getDigital pin c).2 = store c /\
  (hw_log (hw (getDigital pin c).2) = hw_log (hw c) \/
   exists level, hw_log (hw (getDigital pin c).2)
                 = hw_log (hw c) ++ [EvPinMode pin INPUT; EvDigitalRead pin level]) /\
  store (getPWM pin c).2 = store c /\
  (getPWM pin c).2 = c.
Proof.
  split; [apply getDigital_store|]. split.
  - unfold getDigital. destruct (negb (isValidPin pin)); [now left|].
    destruct (_pinStates c !! pin) as [state|].
    + destruct (isInitialized state && PinMode_eqb (mode state) DIGITAL_OUTPUT);
        [now left|]. right. rewrite read_as_input_eq. simpl. eauto.
    + right. rewrite read_as_input_eq. simpl. eauto.
  - now rewrite getPWM_unchanged.
Qed.

(** C4: for an allowed pin, [setDigital(pin, 1)] succeeds and leaves a
    DigitalOutput record holding 1; the following [getDigital(pin)] returns
    that 1 and hands back the controller exactly as it was, hardware log
    included: no input read, no pin reconfiguration. *)
Theorem C4_set_then_get_is_cached (pin : Z) (c : PinController) :
  isValidPin pin = true ->
  exists c1,
    setDigital pin 1 c = (true, c1) /\
    _pinStates c1 !! pin = Some (digital 1) /\
    getDigital pin c1 = (1, c1) /\
    hw_log (hw (getDigital pin c1).2) = hw_log (hw c1).
Proof.
  intros Hpin.
  destruct (setDigital_eq pin 1 c Hpin (or_intror eq_refl)) as (h & Heq & _).
  eexists. split; [exact Heq|].
  assert (E : forall s n ch, _pinStates (mkPinController (<[pin := digital 1]> s) n ch h) !! pin
                             = Some (digital 1)) by (intros; apply lookup_insert_eq).
  split; [apply E|].
  rewrite (getDigital_cached pin _ _ Hpin (E _ _ _)) by reflexivity.
  split; reflexivity.
Qed.

Lemma C4_set_then_get_is_cached_witness :
  isValidPin 13 = true /\
  exists c1,
    setDigital 13 1 (PinController_new quiet_world) = (true, c1) /\
    _pinStates c1 !! 13 = Some (digital 1) /\
    getDigital 13 c1 = (1, c1) /\
    hw_log (hw (getDigital 13 c1).2) = hw_log (hw c1).
Proof.
  split; [reflexivity|].
  apply (C4_set_then_get_is_cached 13 (PinController_new quiet_world)). reflexivity.
Defined.

Lemma toggle_as_get_set (pin : Z) (c : PinController) :
  store_inv c -> isValidPin pin = true ->
  toggle pin c = setDigital pin (1 - (getDigital pin c).1) (getDigital pin c).2.
Proof.
  intros Hinv Hpin. unfold toggle. rewrite Hpin. simpl.
  pose proof (getDigital_bit pin c Hinv Hpin) as Hb.
  destruct (getDigital pin c) as [v c1]. simpl in *.
  destruct Hb as [-> | ->]; reflexivity.
Qed.

(** C5: in every reachable state, for an allowed pin, [toggle] is
    [getDigital] followed, unless the read gave the -1 sentinel, by
    [setDigital] with [1 - value]; it fails exactly when the read gave -1.
    For a pin with a DigitalOutput record, two toggles succeed, the first
    stores the complement and the second stores the original value again;
    the whole store is then as at the start. *)
Theorem C5_toggle_is_get_then_set (pin : Z) (c : PinController) :
  reachable c ->
  (isValidPin pin = true ->
     toggle pin c =
       (let '(v, c1) := getDigital pin c in
        if v =? -1 then (false, c1) else setDigital pin (1 - v) c1) /\
     ((toggle pin c).1 = false <-> (getDigital pin c).1 = -1)) /\
  (forall v, _pinStates c !! pin = Some (digital v) ->
     let c1 := (toggle pin c).2 in
     let c2 := (toggle pin c1).2 in
     (toggle pin c).1 = true /\ (toggle pin c1).1 = true /\
     _pinStates c1 !! pin = Some (digital (1 - v)) /\
     _pinStates c2 !! pin = Some (digital v) /\
     store c2 = store c).
Proof.
  intros Hreach. pose proof (reachable_inv c Hreach) as Hinv. split.
  - intros Hpin.
    pose proof (toggle_as_get_set pin c Hinv Hpin) as Ht.
    pose proof (getDigital_bit pin c Hinv Hpin) as Hb.
    pose proof (getDigital_inv pin c Hinv) as Hinv1.
    destruct (getDigital pin c) as [v c1]. simpl in *.
    assert (Hne : (v =? -1) = false) by (destruct Hb as [-> | ->]; reflexivity).
    rewrite Hne. split; [exact Ht|].
    rewrite Ht.
    destruct (setDigital_eq pin (1 - v) c1 Hpin) as (h & -> & _); [lia|].
    simpl. split; [discriminate | lia].
  - intros v E c1 c2.
    destruct Hinv as [Hn Hr Hi Hc Hp Hd Hs].
    assert (Hpin : isValidPin pin = true) by (now destruct (Hs pin _ E)).
    assert (Hv : v = 0 \/ v = 1) by (now apply (Hd pin)).
    assert (Hinv : store_inv c) by (now split).
    assert (Ht1 : toggle pin c = setDigital pin (1 - v) c).
    { rewrite toggle_as_get_set by assumption.
      now rewrite (getDigital_cached pin c _ Hpin E). }
    destruct (setDigital_eq pin (1 - v) c Hpin) as (h1 & Hs1 & _); [lia|].
    assert (E1 : _pinStates c1 !! pin = Some (digital (1 - v))).
    { subst c1. rewrite Ht1, Hs1. simpl. apply lookup_insert_eq. }
    assert (Hinv1 : store_inv c1) by (subst c1; now apply toggle_inv).
    assert (Ht2 : toggle pin c1 = setDigital pin v c1).
    { rewrite toggle_as_get_set by assumption.
      rewrite (getDigital_cached pin c1 _ Hpin E1) by reflexivity. simpl.
      f_equal. lia. }
    destruct (setDigital_eq pin v c1 Hpin Hv) as (h2 & Hs2 & _).
    subst c2. rewrite Ht2, Hs2, Ht1, Hs1. simpl.
    repeat split; try assumption.
    + apply lookup_insert_eq.
    + unfold store. simpl. subst c1. rewrite Ht1, Hs1. simpl.
      now rewrite insert_insert_eq, insert_id.
Qed.

Lemma C5_toggle_is_get_then_set_witness :
  reachable pin13_high /\
  (toggle 13 (toggle 13 pin13_high).2).1 = true /\
  store (toggle 13 (toggle 13 pin13_high).2).2 = store pin13_high.
Proof.
  assert (Hr : reachable pin13_high).
  { exists quiet_world, [OpSetDigital 13 1]. reflexivity. }
  split; [exact Hr|].
  destruct (C5_toggle_is_get_then_set 13 pin13_high Hr) as [_ Hinvol].
  destruct (Hinvol 1 eq_refl) as (_ & H2 & _ & _ & H5).
  split; [exact H2 | exact H5].
Defined.

(** C9: after any sequence of store operations on a fresh controller,
    (1) two different pins in PwmOutput mode never hold the same channel,
    (2) every pin in PwmOutput mode holds a channel, below 16,
    (3) the allocator has handed out at most 16 channels and the channel map
        has at most 16 entries,
    (4) when the allocator hands out a channel next, it is one that no pin in
        PwmOutput mode holds. *)
Theorem C9_pwm_channels_unique_and_bounded
    (world : list HwEvent -> Z -> bool) (ops : list Op) :
  let c := run_ops ops (PinController_new world) in
  (forall p q k,
     in_mode PWM_OUTPUT p c = true -> in_mode PWM_OUTPUT q c = true ->
     _pinToPWMChannel c !! p = Some k -> _pinToPWMChannel c !! q = Some k -> p = q) /\
  (forall p, in_mode PWM_OUTPUT p c = true ->
     exists k, _pinToPWMChannel c !! p = Some k /\ 0 <= k < 16) /\
  (0 <= _nextPWMChannel c <= 16 /\ Z.of_nat (size (_pinToPWMChannel c)) <= 16) /\
  (forall q c', configurePWMOutput q c = (true, c') ->
     _pinToPWMChannel c' !! q = Some (_nextPWMChannel c) /\
     forall p, in_mode PWM_OUTPUT p c = true ->
               _pinToPWMChannel c !! p <> Some (_nextPWMChannel c)).
Proof.
  intros c.
  assert (Hinv : store_inv c) by apply run_ops_inv, store_inv_new.
  destruct Hinv as [Hn Hr Hi Hc Hp Hd Hs]. repeat split; try lia.
  - intros p q k _ _. apply Hi.
  - intros p Hm. apply in_mode_Some in Hm as [v E].
    destruct (Hp p v E) as [[k Hk] _]. exists k. split; [exact Hk|].
    apply Hr in Hk. lia.
  - destruct (Z_lt_le_dec (_nextPWMChannel c) 16) as [Hfree|Hfull].
    + rewrite configurePWMOutput_free in H by exact Hfree.
      injection H as <-. simpl. apply lookup_insert_eq.
    + rewrite configurePWMOutput_full in H by exact Hfull. discriminate.
  - intros p _ Hk. apply Hr in Hk. lia.
Qed.

(** C2, at the input where the code departs from it: with all 16 channels
    handed out, [setPWM(32, 100)] on the untouched allowed pin 32 returns
    false and leaves allocator and channel map alone, but the store now has
    an element for pin 32 (a value-initialised [PinState]) that it did not
    have before. *)
Theorem C2_failed_setPWM_inserts_a_record :
  _nextPWMChannel pool_exhausted = 16 /\
  isValidPin 32 = true /\
  in_mode PWM_OUTPUT 32 pool_exhausted = false /\
  _pinStates pool_exhausted !! 32 = None /\
  (setPWM 32 100 pool_exhausted).1 = false /\
  _nextPWMChannel (setPWM 32 100 pool_exhausted).2 = 16 /\
  _pinToPWMChannel (setPWM 32 100 pool_exhausted).2 = _pinToPWMChannel pool_exhausted /\
  _pinStates (setPWM 32 100 pool_exhausted).2 !! 32 = Some PinState_new /\
  store (setPWM 32 100 pool_exhausted).2 <> store pool_exhausted.
Proof.
  assert (Hn : _nextPWMChannel pool_exhausted = 16) by (vm_compute; reflexivity).
  assert (Hm : in_mode PWM_OUTPUT 32 pool_exhausted = false) by (vm_compute; reflexivity).
  assert (E : _pinStates pool_exhausted !! 32 = None) by (vm_compute; reflexivity).
  revert Hn Hm E. generalize pool_exhausted. intros c Hn Hm E.
  assert (Hfull : 16 <= _nextPWMChannel c) by (rewrite Hn; lia).
  rewrite (setPWM_exhausted 32 100 c eq_refl eq_refl Hm Hfull).
  cbn [fst snd _pinStates _nextPWMChannel _pinToPWMChannel].
  assert (E' : map_subscript PinState_new 32 (_pinStates c) !! 32 = Some PinState_new).
  { rewrite map_subscript_lookup, decide_True by reflexivity. now rewrite E. }
  repeat split; try assumption.
  unfold store. cbn [_pinStates]. intros [= H]. rewrite H, E in E'. discriminate.
Qed.

(** What [resetAllPins] itself does: it clears records, allocator and
    channel map, and a read of any allowed pin afterwards goes through the
    input-read path. *)
Lemma resetAllPins_then_getDigital (pin : Z) (c : PinController) :
  isValidPin pin = true ->
  store (resetAllPins c).2 = (∅, 0, ∅) /\
  getDigital pin (resetAllPins c).2 = read_as_input pin (resetAllPins c).2.
Proof.
  intros Hpin. split; [reflexivity|].
  apply getDigital_input; [exact Hpin|]. unfold in_mode. simpl.
  now rewrite lookup_empty.
Qed.

(** ** The executors *)

Lemma generateResponse_success (cmd : Command) (success : bool) (message : string) (rv : Z) :
  doc_get "success" (generateResponse cmd success message rv) = Some (JBool success).
Proof.
  unfold generateResponse.
  destruct (0 <=? cmd_pin cmd), (0 <=? rv), (0 <? AString.len message),
    (negb success && (0 <? AString.len (errorMessage cmd))); reflexivity.
Qed.

Lemma reply_success_generateResponse (cmd : Command) (success : bool) (message : string) (rv : Z) :
  reply_success (ReplyJson (generateResponse cmd success message rv)) = Some success.
Proof. simpl. now rewrite generateResponse_success. Qed.

(** C1, where the code departs from it: the text RESET_PINS parses to a
    valid command, but neither executor has a case for it.  On every
    controller both answer with success=false, "Unknown command", and hand
    the controller back untouched.  So with pin 13 set high beforehand, the
    record of pin 13 is still there after RESET_PINS and the following
    [getDigital(13)] returns the cached 1 without any input read. *)
Theorem C1_RESET_PINS_is_not_executed
    (lib : JsonLibrary) (hasRestartCallback : bool) (c : PinController) :
  isValid (parse lib "RESET_PINS") = true /\
  processCommand lib "RESET_PINS" c = (ReplyJson (unknown_command_response RESET_PINS), c) /\
  executeCommand hasRestartCallback (parse lib "RESET_PINS") c
    = (ReplyJson (unknown_command_response RESET_PINS), None, c) /\
  processSerialCommands lib hasRestartCallback "RESET_PINS" c
    = (Some (ReplyJson (unknown_command_response RESET_PINS), None), c) /\
  _pinStates pin13_high !! 13 = Some (digital 1) /\
  _pinStates (processCommand lib "RESET_PINS" pin13_high).2 !! 13 = Some (digital 1) /\
  getDigital 13 (processCommand lib "RESET_PINS" pin13_high).2 = (1, pin13_high).
Proof.
  assert (Hp : parse lib "RESET_PINS"
               = {| cmd_type := RESET_PINS; cmd_pin := -1; cmd_value := -1; errorMessage := "" |})
    by (vm_compute; reflexivity).
  assert (Hn : forall c', processCommand lib "RESET_PINS" c'
                          = (ReplyJson (unknown_command_response RESET_PINS), c'))
    by (intros c'; unfold processCommand; rewrite Hp; reflexivity).
  split; [now rewrite Hp|].
  split; [apply Hn|].
  split; [now rewrite Hp|].
  split.
  - unfold processSerialCommands.
    change (AString.trim "RESET_PINS") with "RESET_PINS"%string.
    rewrite Hp. reflexivity.
  - rewrite Hn. split; [|split]; vm_compute; reflexivity.
Qed.

Lemma executeCommand_disallowed (hasCb : bool) (cmd : Command) (c : PinController) :
  isValidPin (cmd_pin cmd) = false -> pin_command (cmd_type cmd) = true ->
  exists r, executeCommand hasCb cmd c = (r, None, c) /\ reply_success r = Some false.
Proof.
  intros Hpin Ht. unfold executeCommand.
  destruct (cmd_type cmd); try discriminate.
  - rewrite setDigital_invalid by exact Hpin.
    eexists; split; [reflexivity | apply reply_success_generateResponse].
  - rewrite getDigital_invalid by exact Hpin.
    eexists; split; [reflexivity | apply reply_success_generateResponse].
  - rewrite toggle_invalid by exact Hpin.
    eexists; split; [reflexivity | apply reply_success_generateResponse].
  - rewrite setPWM_invalid by exact Hpin.
    eexists; split; [reflexivity | apply reply_success_generateResponse].
Qed.

Lemma processCommand_disallowed (lib : JsonLibrary) (input : string) (c : PinController) :
  isValidPin (cmd_pin (parse lib input)) = false ->
  (pin_command (cmd_type (parse lib input)) || negb (isValid (parse lib input))) = true ->
  exists r, processCommand lib input c = (r, c) /\ reply_success r = Some false.
Proof.
  intros Hpin Ht. unfold processCommand. cbv zeta.
  destruct (negb (isValid (parse lib input))) eqn:Hv.
  - eexists; split; [reflexivity | apply reply_success_generateResponse].
  - rewrite orb_false_r in Ht.
    destruct (cmd_type (parse lib input)); try discriminate.
    + rewrite setDigital_invalid by exact Hpin.
      eexists; split; [reflexivity | apply reply_success_generateResponse].
    + rewrite getDigital_invalid by exact Hpin.
      eexists; split; [reflexivity | apply reply_success_generateResponse].
    + rewrite toggle_invalid by exact Hpin.
      eexists; split; [reflexivity | apply reply_success_generateResponse].
    + rewrite setPWM_invalid by exact Hpin.
      eexists; split; [reflexivity | apply reply_success_generateResponse].
Qed.

Lemma processSerialCommands_disallowed
    (lib : JsonLibrary) (hasCb : bool) (line : string) (c : PinController) :
  (AString.len (AString.trim line) =? 0) = false ->
  isValidPin (cmd_pin (parse lib (AString.trim line))) = false ->
  (pin_command (cmd_type (parse lib (AString.trim line)))
   || negb (isValid (parse lib (AString.trim line)))) = true ->
  exists r, processSerialCommands lib hasCb line c = (Some (r, None), c)
            /\ reply_success r = Some false.
Proof.
  intros Hlen Hpin Ht. unfold processSerialCommands. cbv zeta. rewrite Hlen.
  destruct (negb (isValid (parse lib (AString.trim line)))) eqn:Hv.
  - eexists; split; [reflexivity | apply reply_success_generateResponse].
  - rewrite orb_false_r in Ht.
    destruct (executeCommand_disallowed hasCb _ c Hpin Ht) as (r & -> & Hr).
    exists r. split; [reflexivity | exact Hr].
Qed.

(** C3: let [p] be outside the allowed pin set.
    (1) The four store operations on [p] fail and return the controller
        as it was.
    (2) The console executor, given any SET, GET, TOGGLE or PWM command for
        [p], answers success=false with the controller as it was.
    (3) The network executor, for any input whose parse is such a command
        for [p] or a rejection that recorded [p], answers success=false with
        the controller as it was.
    (4) So does the console handler for any such non-blank line.
    "As it was" is equality of the whole controller: records, allocator,
    channel map and hardware log. *)
Theorem C3_disallowed_pin_is_rejected (lib : JsonLibrary) (p : Z) :
  isValidPin p = false ->
  (forall v c,
     setDigital p v c = (false, c) /\ getDigital p c = (-1, c) /\
     toggle p c = (false, c) /\ setPWM p v c = (false, c)) /\
  (forall hasRestartCallback cmd c, addresses cmd p ->
     exists r, executeCommand hasRestartCallback cmd c = (r, None, c)
               /\ reply_success r = Some false) /\
  (forall input c, names_pin (parse lib input) p ->
     exists r, processCommand lib input c = (r, c) /\ reply_success r = Some false) /\
  (forall hasRestartCallback line c,
     (AString.len (AString.trim line) =? 0) = false ->
     names_pin (parse lib (AString.trim line)) p ->
     exists r, processSerialCommands lib hasRestartCallback line c = (Some (r, None), c)
               /\ reply_success r = Some false).
Proof.
  intros Hp. repeat split.
  - now apply setDigital_invalid.
  - now apply getDigital_invalid.
  - now apply toggle_invalid.
  - now apply setPWM_invalid.
  - intros hasCb cmd c [<- Ht]. now apply executeCommand_disallowed.
  - intros input c [Hpin Ht]. apply processCommand_disallowed; [|exact Ht].
    now rewrite Hpin.
  - intros hasCb line c Hlen [Hpin Ht].
    apply processSerialCommands_disallowed; [exact Hlen| |exact Ht].
    now rewrite Hpin.
Qed.

Lemma C3_disallowed_pin_is_rejected_witness :
  isValidPin 99 = false /\
  names_pin (parse (library_yielding []) "SET 99 1") 99 /\
  exists r, processCommand (library_yielding []) "SET 99 1" pin13_high = (r, pin13_high)
            /\ reply_success r = Some false.
Proof.
  split; [reflexivity|].
  assert (Hn : names_pin (parse (library_yielding []) "SET 99 1") 99)
    by (split; vm_compute; reflexivity).
  split; [exact Hn|].
  destruct (C3_disallowed_pin_is_rejected (library_yielding []) 99 eq_refl) as (_ & _ & H & _).
  exact (H "SET 99 1"%string pin13_high Hn).
Defined.

(** ** The supervisor *)

Lemma feed_keeps_lastErrorTime (t : Z) (w : WatchdogManager) :
  _lastErrorTime (feed t w) = _lastErrorTime w.
Proof. unfold feed. now destruct (_ <? FEED_INTERVAL). Qed.

Lemma feed_no_cooldown (t : Z) (w : WatchdogManager) :
  _consecutiveErrors w = 0 \/ wrap32 (t - _lastErrorTime w) <= Config.ERROR_COOLDOWN_PERIOD ->
  _consecutiveErrors (feed t w) = _consecutiveErrors w.
Proof.
  intros H. unfold feed. destruct (_ <? FEED_INTERVAL); [reflexivity|]. simpl.
  destruct H as [-> | H]; [reflexivity|].
  destruct (Z.ltb_spec Config.ERROR_COOLDOWN_PERIOD (wrap32 (t - _lastErrorTime w))); [lia|].
  now rewrite andb_false_r.
Qed.

Lemma feed_cooled_down (t : Z) (w : WatchdogManager) :
  FEED_INTERVAL <= wrap32 (t - _lastFeed w) ->
  Config.ERROR_COOLDOWN_PERIOD < wrap32 (t - _lastErrorTime w) ->
  0 <= _consecutiveErrors w ->
  _consecutiveErrors (feed t w) = 0 /\ _lastFeed (feed t w) = t.
Proof.
  intros Hf Hc Hk. unfold feed.
  destruct (Z.ltb_spec (wrap32 (t - _lastFeed w)) FEED_INTERVAL); [lia|]. simpl.
  split; [|reflexivity].
  destruct (Z.ltb_spec 0 (_consecutiveErrors w)); simpl; [|lia].
  destruct (Z.ltb_spec Config.ERROR_COOLDOWN_PERIOD (wrap32 (t - _lastErrorTime w)));
    [reflexivity|lia].
Qed.

Lemma registerError_below (message : string) (t : Z) (w : WatchdogManager) :
  0 <= _consecutiveErrors w < 9 ->
  exists w', registerError message t w = Returns w' /\
             _consecutiveErrors w' = _consecutiveErrors w + 1 /\
             _lastErrorTime w' = t /\ _lastFeed w' = _lastFeed w.
Proof.
  intros Hk. unfold registerError. simpl.
  assert (Hi : int_incr (_consecutiveErrors w) = _consecutiveErrors w + 1).
  { unfold int_incr, AString.INT_MAX.
    destruct (Z.leb_spec (_consecutiveErrors w + 1) 2147483647); [reflexivity|lia]. }
  rewrite Hi.
  destruct (Z.leb_spec Config.MAX_CONSECUTIVE_ERRORS (_consecutiveErrors w + 1)) as [H|H];
    [unfold Config.MAX_CONSECUTIVE_ERRORS in H; lia|].
  eexists. split; [reflexivity|]. simpl. auto.
Qed.

Lemma registerError_threshold (message : string) (t : Z) (w : WatchdogManager) :
  _consecutiveErrors w = 9 ->
  exists w', registerError message t w = Restarts "Maximum consecutive errors exceeded" w'.
Proof.
  intros Hk. unfold registerError. simpl. rewrite Hk. simpl. eexists. reflexivity.
Qed.

Lemma run_from_app (i : nat) (pre post : list Call) (w w' : WatchdogManager) :
  run_from i pre w = inl w' ->
  run_from i (pre ++ post) w = run_from (i + length pre) post w'.
Proof.
  revert i w. induction pre as [|call pre IH]; intros i w H; simpl in *.
  - injection H as ->. now rewrite Nat.add_0_r.
  - destruct (step w call) as [w1|]; [|discriminate].
    rewrite (IH _ _ H). f_equal. lia.
Qed.

(** Below the threshold and with no cooldown in between, every call returns
    and the consecutive-error counter counts the errors. *)
Lemma run_from_no_cooldown (calls : list Call) :
  forall (i : nat) (w : WatchdogManager) (lastErr : option Z),
  0 <= _consecutiveErrors w ->
  _consecutiveErrors w + Z.of_nat (count_errors calls) <= 9 ->
  match lastErr with
  | Some te => _lastErrorTime w = te
  | None => _consecutiveErrors w = 0
  end ->
  no_cooldown lastErr calls = true ->
  exists w', run_from i calls w = inl w' /\
             _consecutiveErrors w' = _consecutiveErrors w + Z.of_nat (count_errors calls).
Proof.
  induction calls as [|call calls IH]; intros i w lastErr Hk Hsum Hlast Hnc.
  - exists w. split; [reflexivity|]. unfold count_errors. simpl. lia.
  - destruct call as [t|message t]; simpl.
    + assert (Hsame : _consecutiveErrors (feed t w) = _consecutiveErrors w).
      { apply feed_no_cooldown. destruct lastErr as [te|]; [|now left].
        simpl in Hnc. apply andb_true_iff in Hnc as [Hle _].
        apply Z.leb_le in Hle. right. now rewrite Hlast. }
      assert (Hnc' : no_cooldown lastErr calls = true).
      { simpl in Hnc. destruct lastErr; [|exact Hnc].
        now apply andb_true_iff in Hnc as [_ ?]. }
      assert (Hcnt : count_errors (CallFeed t :: calls) = count_errors calls) by reflexivity.
      rewrite Hcnt in *.
      destruct (IH (S i) (feed t w) lastErr) as (w' & Hrun & Hc).
      * rewrite Hsame. exact Hk.
      * rewrite Hsame. exact Hsum.
      * destruct lastErr; [rewrite feed_keeps_lastErrorTime | rewrite Hsame]; exact Hlast.
      * exact Hnc'.
      * exists w'. split; [exact Hrun|]. rewrite Hc, Hsame. reflexivity.
    + assert (Hcnt : count_errors (CallRegisterError message t :: calls)
                     = S (count_errors calls)) by reflexivity.
      rewrite Hcnt in *.
      destruct (registerError_below message t w) as (w1 & -> & Hc1 & Ht1 & _); [lia|].
      destruct (IH (S i) w1 (Some t)) as (w' & Hrun & Hc).
      * rewrite Hc1. lia.
      * rewrite Hc1. lia.
      * exact Ht1.
      * exact Hnc.
      * exists w'. split; [exact Hrun|]. rewrite Hc, Hc1. lia.
Qed.

Lemma feed_lastFeed (t : Z) (w : WatchdogManager) :
  _lastFeed (feed t w) = if FEED_INTERVAL <=? wrap32 (t - _lastFeed w) then t else _lastFeed w.
Proof.
  unfold feed.
  destruct (Z.ltb_spec (wrap32 (t - _lastFeed w)) FEED_INTERVAL),
           (Z.leb_spec FEED_INTERVAL (wrap32 (t - _lastFeed w))); try lia; reflexivity.
Qed.

Lemma feed_throttled (t : Z) (w : WatchdogManager) :
  (FEED_INTERVAL <=? wrap32 (t - _lastFeed w)) = false ->
  _consecutiveErrors (feed t w) = _consecutiveErrors w.
Proof.
  intros H. apply Z.leb_gt in H. unfold feed.
  destruct (Z.ltb_spec (wrap32 (t - _lastFeed w)) FEED_INTERVAL); [reflexivity | lia].
Qed.

(** When every error is followed by a [feed] that clears it, every call
    returns and the counter is 1 while an error is pending and 0 otherwise. *)
Lemma run_from_cooldown_after_each_error (calls : list Call) :
  forall (i : nat) (w : WatchdogManager) (pending : option Z),
  match pending with
  | Some te => _consecutiveErrors w = 1 /\ _lastErrorTime w = te
  | None => _consecutiveErrors w = 0
  end ->
  cooldown_after_each_error (_lastFeed w) pending calls = true ->
  exists w', run_from i calls w = inl w' /\ 0 <= _consecutiveErrors w' <= 1.
Proof.
  induction calls as [|call calls IH]; intros i w pending Hp Hcd.
  - exists w. split; [reflexivity|]. destruct pending as [te|]; [destruct Hp|]; lia.
  - destruct call as [t|message t]; simpl in *.
    + rewrite <- feed_lastFeed in Hcd.
      destruct pending as [te|].
      * destruct Hp as [Hone Hte].
        destruct (FEED_INTERVAL <=? wrap32 (t - _lastFeed w)) eqn:Hacc; simpl in Hcd.
        -- destruct (Z.ltb_spec Config.ERROR_COOLDOWN_PERIOD (wrap32 (t - te))) as [Hlate|Hearly].
           ++ apply (IH (S i) (feed t w) None); [|exact Hcd].
              apply Z.leb_le in Hacc.
              apply (feed_cooled_down t w); [exact Hacc | now rewrite Hte | lia].
           ++ apply (IH (S i) (feed t w) (Some te)); [|exact Hcd].
              rewrite feed_keeps_lastErrorTime, feed_no_cooldown; [auto|].
              right. rewrite Hte. exact Hearly.
        -- apply (IH (S i) (feed t w) (Some te)); [|exact Hcd].
           rewrite feed_keeps_lastErrorTime, (feed_throttled t w Hacc). auto.
      * apply (IH (S i) (feed t w) None); [|exact Hcd].
        rewrite feed_no_cooldown; [exact Hp | now left].
    + destruct pending as [te|]; [discriminate|].
      destruct (registerError_below message t w) as (w1 & -> & Hc1 & Ht1 & Hf1); [lia|].
      apply (IH (S i) w1 (Some t)); [|now rewrite Hf1].
      split; [lia | exact Ht1].
Qed.

(** C6, with the cooldown made precise.
    (1) From a supervisor with no consecutive errors, let nine
        [registerError] calls be made, with [feed] calls anywhere among them
        but none coming more than [ERROR_COOLDOWN_PERIOD] after the latest
        error.  All of these calls return; the tenth [registerError] does
        not: it ends in [restart].  Whatever is listed after it never runs,
        so this is the only restart, and it happens on the call that reaches
        the threshold.
    (2) From a supervisor with no consecutive errors, take any sequence of
        [registerError] and [feed] calls, with any number of errors, in
        which each error is followed, before the next error, by a [feed]
        that is not rate-limited and comes more than [ERROR_COOLDOWN_PERIOD]
        after that error; other [feed] calls may come anywhere.  Every call
        returns, so there is no restart, and the counter of consecutive
        errors ends at 0 or 1. *)
Theorem C6_restart_at_threshold_only
    (w : WatchdogManager) (before after spread : list Call)
    (message : string) (t : Z) :
  _consecutiveErrors w = 0 ->
  (count_errors before = 9%nat -> no_cooldown None before = true ->
     (exists w', run before w = inl w' /\ _consecutiveErrors w' = 9) /\
     run (before ++ CallRegisterError message t :: after) w = inr (length before)) /\
  (cooldown_after_each_error (_lastFeed w) None spread = true ->
     exists w', run spread w = inl w' /\ 0 <= _consecutiveErrors w' <= 1).
Proof.
  intros Hk. split.
  - intros Hcnt Hnc.
    destruct (run_from_no_cooldown before 0%nat w None) as (w' & Hrun & Hc);
      try rewrite Hk; try rewrite Hcnt; auto; try lia.
    rewrite Hk, Hcnt in Hc. simpl in Hc.
    split; [exists w'; auto|].
    unfold run. rewrite (run_from_app _ _ _ _ _ Hrun). simpl.
    destruct (registerError_threshold message t w' Hc) as [w'' ->]. reflexivity.
  - intros Hcd. exact (run_from_cooldown_after_each_error spread 0%nat w None Hk Hcd).
Qed.

Lemma C6_restart_at_threshold_only_witness :
  let nine := map (fun i => CallRegisterError "e" i) [1; 2; 3; 4; 5; 6; 7; 8; 9] in
  _consecutiveErrors booted = 0 /\
  run (nine ++ CallRegisterError "e" 10 :: [CallFeed 11]) booted = inr 9%nat /\
  cooldown_after_each_error (_lastFeed booted) None spread_run = true /\
  exists w', run spread_run booted = inl w' /\ 0 <= _consecutiveErrors w' <= 1.
Proof.
  intros nine. split; [reflexivity|].
  destruct (C6_restart_at_threshold_only booted nine [CallFeed 11] spread_run "e" 10 eq_refl)
    as [H1 H2].
  split; [apply H1; reflexivity|].
  split; [reflexivity|]. apply H2. reflexivity.
Defined.

(** C6 does not hold for every spread-out run: in [throttled_run] ten
    errors are registered, any two in a row are more than
    [ERROR_COOLDOWN_PERIOD] apart, and between
    them [feed] is called after the cooldown has passed; the tenth
    [registerError] (call number 27) still ends in [restart], because each of
    those [feed] calls is cut short by the rate limiter. *)
Lemma C6_spread_errors_counterexample :
  count_errors throttled_run = 10%nat /\
  spread_as_worded None false throttled_run = true /\
  run throttled_run booted = inr 27%nat.
Proof. vm_compute. repeat split. Qed.

(** ** The parser *)

Lemma check_value_well_formed (t : CommandType) (pin v : Z) :
  t = SET \/ t = PWM -> isValidPin pin = true ->
  isValid (check_value t pin v) = true -> well_formed (check_value t pin v).
Proof.
  intros [-> | ->] Hpin; unfold check_value, well_formed.
  - destruct (Z.eqb_spec v 0), (Z.eqb_spec v 1); simpl; try discriminate; auto.
  - destruct (Z.ltb_spec v 0), (Z.ltb_spec 255 v); simpl; try discriminate.
    intros _. repeat split; auto.
Qed.

Lemma parseJSON_well_formed (lib : JsonLibrary) (jsonString : string) :
  isValid (parseJSON lib jsonString) = true -> well_formed (parseJSON lib jsonString).
Proof.
  unfold parseJSON.
  destruct (deserializeJson lib jsonString) as [error|doc]; [discriminate|].
  destruct (negb (containsKey "cmd" doc)); [discriminate|]. cbv zeta.
  destruct (stringToCommandType _) eqn:Ht; try discriminate;
    try (intros _; unfold well_formed; simpl; auto; fail);
    (destruct (negb (containsKey "pin" doc)); [discriminate|]);
    (destruct (isValidPin (as_int lib (doc_get "pin" doc))) eqn:Hpin; [|discriminate]);
    simpl negb; cbv iota;
    try (intros _; unfold well_formed; simpl; auto; fail);
    (destruct (negb (containsKey "value" doc)); [discriminate|]);
    apply check_value_well_formed; auto.
Qed.

Lemma parseText_well_formed (textString : string) :
  isValid (parseText textString) = true -> well_formed (parseText textString).
Proof.
  unfold parseText. cbv zeta.
  destruct (if AString.indexOf AString.chr_space (AString.toUpperCase textString) =? -1
            then _ else _) as [cmdStr params].
  generalize (AString.trim params). generalize (AString.trim cmdStr). intros kw ps.
  repeat match goal with
         | |- context [AString.toInt ?s] => generalize (AString.toInt s); intro
         end.
  generalize (AString.indexOf AString.chr_space ps). generalize (AString.len ps).
  intros n spacePos.
  destruct (stringToCommandType kw) eqn:Ht; cbv iota.
  - discriminate.
  - destruct (spacePos =? -1); [discriminate|].
    destruct (isValidPin _) eqn:Hpin; [|discriminate]. simpl negb. cbv iota.
    apply check_value_well_formed; auto.
  - destruct (n =? 0); [discriminate|].
    destruct (isValidPin _) eqn:Hpin; [|discriminate]. simpl negb. cbv iota.
    intros _. unfold well_formed. simpl. auto.
  - destruct (n =? 0); [discriminate|].
    destruct (isValidPin _) eqn:Hpin; [|discriminate]. simpl negb. cbv iota.
    intros _. unfold well_formed. simpl. auto.
  - destruct (spacePos =? -1); [discriminate|].
    destruct (isValidPin _) eqn:Hpin; [|discriminate]. simpl negb. cbv iota.
    apply check_value_well_formed; auto.
  - intros _. unfold well_formed. simpl. auto.
  - intros _. unfold well_formed. simpl. auto.
  - intros _. unfold well_formed. simpl. auto.
  - intros _. unfold well_formed. simpl. auto.
Qed.

(** Whatever the input, a command the parser lets through is well formed:
    in particular a pin-addressing command carries an allowed pin and the
    others carry none. *)
Lemma parse_well_formed (lib : JsonLibrary) (input : string) :
  isValid (parse lib input) = true -> well_formed (parse lib input).
Proof.
  unfold parse. destruct (AString.len input =? 0); [discriminate|]. cbv zeta.
  destruct (AString.startsWith _ _).
  - apply parseJSON_well_formed.
  - apply parseText_well_formed.
Qed.

Lemma well_formed_carries_pin (cmd : Command) :
  well_formed cmd -> carries_pin cmd = pin_command (cmd_type cmd).
Proof.
  unfold well_formed, carries_pin. intros [_ H].
  destruct (cmd_type cmd); simpl; try contradiction;
    try (destruct H as [Hp _]; apply isValidPin_range in Hp;
         destruct (Z.leb_spec 0 (cmd_pin cmd)); [reflexivity|lia]);
    destruct H as [-> _]; reflexivity.
Qed.

Lemma generateResponse_members (cmd : Command) (success : bool) (message : string) (rv : Z) :
  let doc := generateResponse cmd success message rv in
  doc_get "success" doc = Some (JBool success) /\
  doc_get "command" doc = Some (JStr (commandTypeToString (cmd_type cmd))) /\
  doc_get "pin" doc = (if 0 <=? cmd_pin cmd then Some (JInt (cmd_pin cmd)) else None) /\
  doc_get "value" doc = (if 0 <=? rv then Some (JInt rv) else None) /\
  doc_get "message" doc =
    (if 0 <? AString.len (resulting_message cmd success message)
     then Some (JStr (resulting_message cmd success message)) else None).
Proof.
  unfold generateResponse, resulting_message. cbv zeta.
  destruct (0 <=? cmd_pin cmd), (0 <=? rv), (0 <? AString.len message) eqn:Hm,
    success; simpl; rewrite ?Hm;
    try (destruct (0 <? AString.len (errorMessage cmd)) eqn:He; simpl; rewrite ?He);
    repeat split; reflexivity.
Qed.

(** C7: in the response of [generateResponse], for every command, success
    flag, message and result value:
    - the [pin] member is there exactly when the command carries a pin
      (its pin is not negative), and then it is the command's pin; for a
      command the parser let through that is exactly when its type is SET,
      GET, TOGGLE or PWM;
    - the [value] member is there exactly when the result value is not
      negative, and then it is that value;
    - the [message] member is there exactly when the resulting message (the
      caller's if not empty, else on failure the command's recorded reason,
      else none) is not empty, and then it is that message;
    - [success] and [command] are always there. *)
Theorem C7_response_members (lib : JsonLibrary) (input : string)
    (cmd : Command) (success : bool) (message : string) (resultValue : Z) :
  let doc := generateResponse cmd success message resultValue in
  doc_get "success" doc = Some (JBool success) /\
  doc_get "command" doc = Some (JStr (commandTypeToString (cmd_type cmd))) /\
  (containsKey "pin" doc = carries_pin cmd /\
   (carries_pin cmd = true -> doc_get "pin" doc = Some (JInt (cmd_pin cmd))) /\
   (cmd = parse lib input -> isValid cmd = true ->
      containsKey "pin" doc = pin_command (cmd_type cmd))) /\
  (containsKey "value" doc = (0 <=? resultValue) /\
   (0 <= resultValue -> doc_get "value" doc = Some (JInt resultValue))) /\
  (containsKey "message" doc = negb (String.eqb (resulting_message cmd success message) "") /\
   (resulting_message cmd success message <> ""%string ->
      doc_get "message" doc = Some (JStr (resulting_message cmd success message)))).
Proof.
  intros doc.
  destruct (generateResponse_members cmd success message resultValue)
    as (Hs & Hc & Hp & Hv & Hm). fold doc in Hs, Hc, Hp, Hv, Hm.
  assert (Hpin : containsKey "pin" doc = carries_pin cmd).
  { unfold containsKey, carries_pin. rewrite Hp. now destruct (0 <=? cmd_pin cmd). }
  assert (Hlen : forall s : string, (0 <? AString.len s) = negb (String.eqb s "")).
  { intros [|a s]; [reflexivity|]. unfold AString.len. simpl String.length.
    destruct (Z.ltb_spec 0 (Z.of_nat (S (String.length s)))); [reflexivity|lia]. }
  repeat split; try assumption.
  - unfold carries_pin. intros H. now rewrite Hp, H.
  - intros -> Hvalid. rewrite Hpin.
    apply well_formed_carries_pin, parse_well_formed, Hvalid.
  - unfold containsKey. rewrite Hv. now destruct (0 <=? resultValue).
  - intros H. rewrite Hv. destruct (Z.leb_spec 0 resultValue); [reflexivity|lia].
  - unfold containsKey. rewrite Hm, Hlen.
    now destruct (String.eqb (resulting_message cmd success message) "").
  - intros H. rewrite Hm, Hlen.
    destruct (String.eqb_spec (resulting_message cmd success message) "");
      [contradiction|reflexivity].
Qed.

Lemma as_int_in_range (lib : JsonLibrary) (z : Z) :
  AString.INT_MIN <= z <= AString.INT_MAX -> as_int lib (Some (JInt z)) = z.
Proof.
  intros [H1 H2]. unfold as_int.
  destruct (Z.leb_spec AString.INT_MIN z), (Z.leb_spec z AString.INT_MAX);
    simpl; try reflexivity; lia.
Qed.

Lemma request_of_response_eq (cmd : Command) (success : bool) (message : string) (rv : Z) :
  request_of_response (generateResponse cmd success message rv) =
  [("cmd"%string, JStr (commandTypeToString (cmd_type cmd)))]
  ++ (if 0 <=? cmd_pin cmd then [("pin"%string, JInt (cmd_pin cmd))] else [])
  ++ (if 0 <=? rv then [("value"%string, JInt rv)] else []).
Proof.
  destruct (generateResponse_members cmd success message rv) as (_ & Hc & Hp & Hv & _).
  unfold request_of_response, member_as. rewrite Hc, Hp, Hv.
  now destruct (0 <=? cmd_pin cmd), (0 <=? rv).
Qed.

(** C8, with the result value tied to the command: let the parser map an
    input to a valid command, and let the command be rendered by [generateResponse] with any success flag and
    message and, for SET and PWM, with the command's value as result value
    (what both executors pass).  Then a structured request made of the
    response's [command], [pin] and [value] members parses back to the very
    same command: type, pin, value and (empty) error message. *)
Theorem C8_response_round_trip (lib : JsonLibrary) (input text : string)
    (success : bool) (message : string) (resultValue : Z) :
  isValid (parse lib input) = true ->
  (cmd_type (parse lib input) = SET \/ cmd_type (parse lib input) = PWM ->
     resultValue = cmd_value (parse lib input)) ->
  deserializeJson lib text
    = inr (request_of_response (generateResponse (parse lib input) success message resultValue)) ->
  parseJSON lib text = parse lib input.
Proof.
  intros Hvalid Hrv Hdoc.
  pose proof (parse_well_formed lib input Hvalid) as Hwf.
  revert Hwf Hrv Hdoc. generalize (parse lib input). intros [t p v e] [He Hwf] Hrv Hdoc.
  simpl in *. subst e.
  unfold parseJSON. rewrite Hdoc, request_of_response_eq. simpl cmd_type. simpl cmd_pin.
  assert (Hint : forall z, 0 <= z <= 255 -> as_int lib (Some (JInt z)) = z)
    by (intros z Hz; apply as_int_in_range; unfold AString.INT_MIN, AString.INT_MAX; lia).
  destruct t; try contradiction;
    try (destruct Hwf as [Hp Hv]; pose proof (isValidPin_range p Hp) as Hr;
         assert (Hp0 : (0 <=? p) = true) by (apply Z.leb_le; lia);
         rewrite Hp0);
    try (destruct Hwf as [-> ->]; destruct (0 <=? resultValue); reflexivity).
  - rewrite (Hrv (or_introl eq_refl)).
    assert (Hv0 : (0 <=? v) = true) by (apply Z.leb_le; lia). rewrite Hv0.
    cbn -[as_int isValidPin]. rewrite !Hint by lia. rewrite Hp. simpl.
    destruct Hv as [-> | ->]; reflexivity.
  - subst v. destruct (0 <=? resultValue);
      cbn -[as_int isValidPin]; rewrite !Hint by lia; rewrite Hp; reflexivity.
  - subst v. destruct (0 <=? resultValue);
      cbn -[as_int isValidPin]; rewrite !Hint by lia; rewrite Hp; reflexivity.
  - rewrite (Hrv (or_intror eq_refl)).
    assert (Hv0 : (0 <=? v) = true) by (apply Z.leb_le; lia). rewrite Hv0.
    cbn -[as_int isValidPin]. rewrite !Hint by lia. rewrite Hp. simpl.
    unfold check_value.
    destruct (Z.ltb_spec v 0), (Z.ltb_spec 255 v); simpl; try reflexivity; lia.
Qed.

Lemma C8_response_round_trip_witness :
  isValid (parse (library_yielding set_13_request) "SET 13 1") = true /\
  parseJSON (library_yielding set_13_request) "SET 13 1 as a request"
  = parse (library_yielding set_13_request) "SET 13 1".
Proof.
  split; [reflexivity|].
  apply (C8_response_round_trip (library_yielding set_13_request) "SET 13 1"
           "SET 13 1 as a request" true "Pin set successfully" 1).
  - reflexivity.
  - intros _. reflexivity.
  - reflexivity.
Defined.

(** C8 does not hold when the result value is not the command's value:
    "SET 13 1" parses to a valid SET; rendered with the default result value
    -1 the response has no [value] member, and the request built from its
    [command] and [pin] members is rejected ("Missing 'value' field"). *)
Lemma C8_round_trip_counterexample :
  isValid (parse (library_yielding set_13_request_without_value) "SET 13 1") = true /\
  request_of_response
    (generateResponse (parse (library_yielding set_13_request_without_value) "SET 13 1")
                      true "" (-1))
  = set_13_request_without_value /\
  deserializeJson (library_yielding set_13_request_without_value) "SET 13 as a request"
  = inr set_13_request_without_value /\
  parseJSON (library_yielding set_13_request_without_value) "SET 13 as a request"
  = reject 13 (-1) "Missing 'value' field" /\
  cmd_type (parseJSON (library_yielding set_13_request_without_value) "SET 13 as a request")
  <> cmd_type (parse (library_yielding set_13_request_without_value) "SET 13 1").
Proof. vm_compute. repeat split. discriminate. Qed.

(** ** Further properties of the pin controller *)

(** The ways [setDigital] can end, on any controller. *)
Lemma setDigital_cases (pin v : Z) (c : PinController) :
  setDigital pin v c = (false, c) \/
  (isValidPin pin = true /\ (v = 0 \/ v = 1) /\
   exists h, setDigital pin v c =
     (true, {| _pinStates := <[pin := digital v]> (_pinStates c);
               _nextPWMChannel := _nextPWMChannel c;
               _pinToPWMChannel := _pinToPWMChannel c; hw := h |})).
Proof.
  destruct (isValidPin pin) eqn:Hpin; [|left; now apply setDigital_invalid].
  destruct (decide (v = 0 \/ v = 1)) as [Hv|Hv].
  - right. destruct (setDigital_eq pin v c Hpin Hv) as (h & Heq & _). eauto.
  - left. apply setDigital_bad_value; tauto.
Qed.

(** The ways [setPWM] can end, on any controller. *)
Lemma setPWM_cases (pin v : Z) (c : PinController) :
  setPWM pin v c = (false, c) \/
  (isValidPin pin = true /\ pwm_value_ok v = true /\
   ((in_mode PWM_OUTPUT pin c = false /\ 16 <= _nextPWMChannel c /\
     setPWM pin v c =
       (false, {| _pinStates := map_subscript PinState_new pin (_pinStates c);
                  _nextPWMChannel := _nextPWMChannel c;
                  _pinToPWMChannel := _pinToPWMChannel c; hw := hw c |})) \/
    (in_mode PWM_OUTPUT pin c = false /\ _nextPWMChannel c < 16 /\
     exists h, setPWM pin v c =
       (true, {| _pinStates := <[pin := pwm v]> (_pinStates c);
                 _nextPWMChannel := _nextPWMChannel c + 1;
                 _pinToPWMChannel := <[pin := _nextPWMChannel c]> (_pinToPWMChannel c);
                 hw := h |})) \/
    (exists v0 h, _pinStates c !! pin = Some (pwm v0) /\
       setPWM pin v c =
       (true, {| _pinStates := <[pin := pwm v]> (_pinStates c);
                 _nextPWMChannel := _nextPWMChannel c;
                 _pinToPWMChannel := map_subscript 0 pin (_pinToPWMChannel c);
                 hw := h |})))).
Proof.
  destruct (isValidPin pin) eqn:Hpin; [|left; now apply setPWM_invalid].
  destruct (pwm_value_ok v) eqn:Hv; [|left; now apply setPWM_bad_value].
  right. split; [reflexivity|]. split; [reflexivity|].
  destruct (in_mode PWM_OUTPUT pin c) eqn:Hm.
  - right. right. apply in_mode_Some in Hm as [v0 E].
    destruct (setPWM_again pin v v0 c Hpin Hv E) as [h Heq]. eauto.
  - destruct (Z_lt_le_dec (_nextPWMChannel c) 16) as [Hfree|Hfull].
    + right. left. destruct (setPWM_alloc pin v c Hpin Hv Hm Hfree) as [h Heq]. eauto.
    + left. split; [reflexivity|]. split; [exact Hfull|]. now apply setPWM_exhausted.
Qed.

(** The ways [toggle] can end, on any controller. *)
Lemma toggle_cases (pin : Z) (c : PinController) :
  toggle pin c = (false, c) \/
  (isValidPin pin = true /\
   exists v h, (v = 0 \/ v = 1) /\ toggle pin c =
     (true, {| _pinStates := <[pin := digital v]> (_pinStates c);
               _nextPWMChannel := _nextPWMChannel c;
               _pinToPWMChannel := _pinToPWMChannel c; hw := h |})).
Proof.
  destruct (isValidPin pin) eqn:Hpin; [|left; now apply toggle_invalid].
  unfold toggle. rewrite Hpin. simpl.
  pose proof (getDigital_store pin c) as Hst.
  destruct (in_mode DIGITAL_OUTPUT pin c) eqn:Hm.
  - apply in_mode_Some in Hm as [v0 E].
    rewrite (getDigital_cached pin c _ Hpin E) by reflexivity. simpl.
    destruct (v0 <? 0); [now left|]. right. split; [reflexivity|].
    assert (Hv : (if v0 =? 0 then 1 else 0) = 0 \/ (if v0 =? 0 then 1 else 0) = 1)
      by (destruct (v0 =? 0); auto).
    destruct (setDigital_eq pin _ c Hpin Hv) as (h & Heq & _). eauto.
  - rewrite getDigital_input, read_as_input_eq in * by assumption.
    set (level := hw_world (hw c) (hw_log (hw c) ++ [EvPinMode pin INPUT]) pin) in *.
    replace (Z.b2z level <? 0) with false by (now destruct level).
    right. split; [reflexivity|].
    assert (Hv : (if Z.b2z level =? 0 then 1 else 0) = 0
                 \/ (if Z.b2z level =? 0 then 1 else 0) = 1)
      by (destruct (Z.b2z level =? 0); auto).
    match goal with |- context [setDigital pin ?x ?c1] =>
      destruct (setDigital_eq pin x c1 Hpin Hv) as (h & Heq & _) end.
    simpl in Heq. eauto.
Qed.

(** X1: whenever [setPWM(pin, v)] reports success, the pin reads back as a
    PWM output: [getPWM] returns [v] without changing anything, [getPinMode]
    is PWM_OUTPUT, [isPinConfigured] holds and the pin has a channel. *)
Theorem setPWM_then_getPWM (pin v : Z) (c c1 : PinController) :
  setPWM pin v c = (true, c1) ->
  getPWM pin c1 = (v, c1) /\
  getPinMode pin c1 = PWM_OUTPUT /\
  isPinConfigured pin c1 = true /\
  is_Some (_pinToPWMChannel c1 !! pin).
Proof.
  intros Hset.
  assert (Hrec : isValidPin pin = true /\ _pinStates c1 !! pin = Some (pwm v)
                 /\ is_Some (_pinToPWMChannel c1 !! pin)).
  { destruct (setPWM_cases pin v c) as [H | (Hpin & _ & [H | [H | H]])].
    - congruence.
    - destruct H as (_ & _ & H). congruence.
    - destruct H as (_ & _ & h & H). rewrite H in Hset. injection Hset as <-.
      simpl. rewrite !lookup_insert_eq. eauto.
    - destruct H as (v0 & h & _ & H). rewrite H in Hset. injection Hset as <-.
      simpl. rewrite lookup_insert_eq, map_subscript_lookup, decide_True by reflexivity.
      eauto. }
  destruct Hrec as (Hpin & E & Hch).
  unfold getPWM, getPinMode, isPinConfigured. rewrite Hpin, E. simpl. auto.
Qed.

Lemma setPWM_then_getPWM_witness :
  exists c1, setPWM 13 100 (PinController_new quiet_world) = (true, c1) /\
             getPWM 13 c1 = (100, c1).
Proof.
  eexists. split; [reflexivity|].
  apply (setPWM_then_getPWM 13 100 (PinController_new quiet_world)). reflexivity.
Defined.

(** X2: whenever [setDigital(pin, v)] reports success, [getDigital] returns
    [v] from the record without touching the hardware, the pin is a
    configured DIGITAL_OUTPUT, and [getPWM] on it gives -1: a pin is never
    a digital and a PWM output at once. *)
Theorem setDigital_then_reads (pin v : Z) (c c1 : PinController) :
  setDigital pin v c = (true, c1) ->
  getDigital pin c1 = (v, c1) /\
  getPWM pin c1 = (-1, c1) /\
  getPinMode pin c1 = DIGITAL_OUTPUT /\
  isPinConfigured pin c1 = true.
Proof.
  intros Hset.
  destruct (setDigital_cases pin v c) as [H | (Hpin & _ & h & H)]; [congruence|].
  rewrite H in Hset. injection Hset as <-.
  unfold getDigital, getPWM, getPinMode, isPinConfigured. simpl.
  rewrite Hpin, lookup_insert_eq. simpl. auto.
Qed.

Lemma setDigital_then_reads_witness :
  exists c1, setDigital 13 0 pin13_pwm = (true, c1) /\
             getDigital 13 c1 = (0, c1) /\ getPWM 13 c1 = (-1, c1).
Proof.
  eexists. split; [reflexivity|].
  destruct (setDigital_then_reads 13 0 pin13_pwm _ eq_refl) as (H1 & H2 & _).
  split; [exact H1 | exact H2].
Defined.

(** X3: an operation on one pin leaves every other pin alone: the record and
    the channel assignment of any pin [q] other than the addressed one are
    after the operation what they were before, on any controller and
    whether the operation succeeds or fails. *)
Theorem other_pins_untouched (op : Op) (pin q : Z) (c : PinController) :
  op_pin op = Some pin -> q <> pin ->
  _pinStates (apply_op c op) !! q = _pinStates c !! q /\
  _pinToPWMChannel (apply_op c op) !! q = _pinToPWMChannel c !! q.
Proof.
  intros Hop Hq. destruct op; simpl in Hop; try discriminate;
    injection Hop as ->; simpl.
  - destruct (setDigital_cases pin v c) as [-> | (_ & _ & h & ->)]; simpl; [auto|].
    now rewrite lookup_insert_ne by congruence.
  - pose proof (getDigital_store pin c) as H. unfold store in H.
    injection H as -> _ ->. auto.
  - destruct (toggle_cases pin c) as [-> | (_ & v & h & _ & ->)]; simpl; [auto|].
    now rewrite lookup_insert_ne by congruence.
  - destruct (setPWM_cases pin v c)
      as [-> | (_ & _ & [(_ & _ & ->) | [(_ & _ & h & ->) | (v0 & h & _ & ->)]])];
      simpl; auto.
    + rewrite map_subscript_lookup, decide_False by congruence. auto.
    + now rewrite !lookup_insert_ne by congruence.
    + rewrite lookup_insert_ne, map_subscript_lookup, decide_False by congruence. auto.
  - now rewrite getPWM_unchanged.
Qed.

Lemma other_pins_untouched_witness :
  _pinStates (apply_op pin13_high (OpSetPWM 14 7)) !! 13 = _pinStates pin13_high !! 13.
Proof.
  apply (other_pins_untouched (OpSetPWM 14 7) 14 13 pin13_high); [reflexivity|lia].
Defined.

(** X4: switching a PWM pin to digital output does not give its channel
    back.  In a reachable state let [pin] be a PWM output on channel [k].
    A [setDigital] on it succeeds, the pin no longer reads as PWM, and
    allocator and channel map are as before, [k] still entered for [pin].
    What the next [setPWM] on the same pin does depends on the allocator
    alone.  With a channel left ([_nextPWMChannel] below 16) it succeeds and
    takes the next unused channel, which is not [k].  With none left
    ([_nextPWMChannel] at 16) it fails and changes nothing: the pin stays a
    digital output that cannot be made a PWM output again, with the unused
    channel [k] still entered for it. *)
Theorem mode_switch_burns_a_channel (pin d v v0 k : Z) (c : PinController) :
  reachable c ->
  _pinStates c !! pin = Some (pwm v0) -> _pinToPWMChannel c !! pin = Some k ->
  d = 0 \/ d = 1 -> pwm_value_ok v = true ->
  let c1 := (setDigital pin d c).2 in
  let c2 := (setPWM pin v c1).2 in
  (setDigital pin d c).1 = true /\
  (getPWM pin c1).1 = -1 /\
  _nextPWMChannel c1 = _nextPWMChannel c /\
  _pinToPWMChannel c1 = _pinToPWMChannel c /\
  k < _nextPWMChannel c <= 16 /\
  (_nextPWMChannel c < 16 ->
     (setPWM pin v c1).1 = true /\
     _nextPWMChannel c2 = _nextPWMChannel c + 1 /\
     _pinToPWMChannel c2 !! pin = Some (_nextPWMChannel c) /\
     _pinStates c2 !! pin = Some (pwm v)) /\
  (_nextPWMChannel c = 16 ->
     setPWM pin v c1 = (false, c1) /\
     _pinStates c1 !! pin = Some (digital d) /\
     _pinToPWMChannel c1 !! pin = Some k).
Proof.
  intros Hreach E Hk Hd Hv c1 c2.
  destruct (reachable_inv c Hreach) as [Hn Hr Hi Hc Hp Hdg Hs].
  assert (Hpin : isValidPin pin = true) by (now destruct (Hs pin _ E)).
  destruct (setDigital_eq pin d c Hpin Hd) as (h1 & H1 & _).
  assert (Hm : in_mode PWM_OUTPUT pin c1 = false).
  { subst c1. rewrite H1. unfold in_mode. simpl. now rewrite lookup_insert_eq. }
  assert (Hrec : _pinStates c1 !! pin = Some (digital d)).
  { subst c1. rewrite H1. simpl. apply lookup_insert_eq. }
  assert (Hnext : _nextPWMChannel c1 = _nextPWMChannel c) by (subst c1; now rewrite H1).
  assert (Hmap : _pinToPWMChannel c1 = _pinToPWMChannel c) by (subst c1; now rewrite H1).
  split; [now rewrite H1|].
  split; [unfold getPWM; now rewrite Hpin, Hrec|].
  split; [exact Hnext|]. split; [exact Hmap|].
  split; [apply Hr in Hk; lia|].
  split.
  - intros Hfree.
    destruct (setPWM_alloc pin v c1 Hpin Hv Hm) as (h2 & H2); [lia|].
    subst c2. rewrite H2. simpl. rewrite Hnext.
    split; [reflexivity|]. split; [reflexivity|].
    split; apply lookup_insert_eq.
  - intros Hfull.
    split; [|split; [exact Hrec | now rewrite Hmap]].
    apply setPWM_exhausted_with_record;
      [exact Hpin | exact Hv | exact Hm | lia | rewrite Hrec; now eexists].
Qed.

Lemma mode_switch_burns_a_channel_witness :
  (reachable pin13_pwm /\
   _pinToPWMChannel pin13_pwm !! 13 = Some 0 /\
   _pinToPWMChannel (setPWM 13 50 (setDigital 13 1 pin13_pwm).2).2 !! 13 = Some 1) /\
  (reachable pool_exhausted /\
   _nextPWMChannel pool_exhausted = 16 /\
   setPWM 4 50 (setDigital 4 1 pool_exhausted).2 = (false, (setDigital 4 1 pool_exhausted).2)).
Proof.
  split.
  - assert (Hr : reachable pin13_pwm).
    { exists quiet_world, [OpSetPWM 13 100]. reflexivity. }
    split; [exact Hr|]. split; [reflexivity|].
    assert (Hfree : _nextPWMChannel pin13_pwm < 16) by reflexivity.
    destruct (mode_switch_burns_a_channel 13 1 50 100 0 pin13_pwm Hr eq_refl eq_refl
                (or_intror eq_refl) eq_refl)
      as (_ & _ & _ & _ & _ & H & _).
    exact (proj1 (proj2 (proj2 (H Hfree)))).
  - assert (Hr : reachable pool_exhausted).
    { eexists quiet_world, _. unfold pool_exhausted. reflexivity. }
    assert (E : _pinStates pool_exhausted !! 4 = Some (pwm 128)) by (vm_compute; reflexivity).
    assert (K : _pinToPWMChannel pool_exhausted !! 4 = Some 0) by (vm_compute; reflexivity).
    assert (N : _nextPWMChannel pool_exhausted = 16) by (vm_compute; reflexivity).
    split; [exact Hr|]. split; [exact N|].
    destruct (mode_switch_burns_a_channel 4 1 50 128 0 pool_exhausted Hr E K
                (or_intror eq_refl) eq_refl)
      as (_ & _ & _ & _ & _ & _ & H).
    exact (proj1 (H N)).
Defined.

Lemma apply_op_keeps (op : Op) (c : PinController) :
  is_reset op = false ->
  _nextPWMChannel c <= _nextPWMChannel (apply_op c op) /\
  (forall p, is_Some (_pinToPWMChannel c !! p) -> is_Some (_pinToPWMChannel (apply_op c op) !! p)) /\
  (forall p, isPinConfigured p c = true -> isPinConfigured p (apply_op c op) = true).
Proof.
  intros Hop. destruct op; try discriminate; simpl.
  - destruct (setDigital_cases pin v c) as [-> | (_ & _ & h & ->)]; simpl;
      repeat split; auto; try lia.
    intros p. unfold isPinConfigured. simpl. rewrite lookup_insert.
    case_decide; auto.
  - pose proof (getDigital_store pin c) as H. unfold store in H.
    injection H as Hs Hn Hc. unfold isPinConfigured. rewrite Hs, Hn, Hc.
    repeat split; auto; lia.
  - destruct (toggle_cases pin c) as [-> | (_ & v & h & _ & ->)]; simpl;
      repeat split; auto; try lia.
    intros p. unfold isPinConfigured. simpl. rewrite lookup_insert.
    case_decide; auto.
  - destruct (setPWM_cases pin v c)
      as [-> | (_ & _ & [(_ & _ & ->) | [(_ & _ & h & ->) | (v0 & h & _ & ->)]])];
      simpl; repeat split; auto; try lia;
      intros p; unfold isPinConfigured; simpl;
      rewrite ?lookup_insert, ?map_subscript_lookup; try case_decide; subst; auto;
      try (destruct (_pinStates c !! p); simpl; auto; fail);
      try (intros _; eauto; fail).
  - rewrite getPWM_unchanged. repeat split; auto; lia.
Qed.

(** X5: only [resetAllPins] ever takes anything back.  Over any sequence of
    the other operations, on any controller, the allocator's next channel
    never goes down, a pin that has a channel assignment keeps one, and a
    configured pin stays configured. *)
Theorem only_reset_releases (ops : list Op) (c : PinController) :
  forallb (fun op => negb (is_reset op)) ops = true ->
  _nextPWMChannel c <= _nextPWMChannel (run_ops ops c) /\
  (forall p, is_Some (_pinToPWMChannel c !! p) ->
             is_Some (_pinToPWMChannel (run_ops ops c) !! p)) /\
  (forall p, isPinConfigured p c = true -> isPinConfigured p (run_ops ops c) = true).
Proof.
  revert c. induction ops as [|op ops IH]; intros c Hops; simpl in *.
  - repeat split; auto; lia.
  - apply andb_true_iff in Hops as [Hop Hops]. apply negb_true_iff in Hop.
    destruct (apply_op_keeps op c Hop) as (H1 & H2 & H3).
    destruct (IH (apply_op c op) Hops) as (I1 & I2 & I3).
    repeat split; [lia | auto | auto].
Qed.

Lemma only_reset_releases_witness :
  isPinConfigured 13 (run_ops [OpSetPWM 14 9; OpToggle 14; OpGetDigital 13] pin13_high) = true.
Proof.
  destruct (only_reset_releases [OpSetPWM 14 9; OpToggle 14; OpGetDigital 13] pin13_high eq_refl)
    as (_ & _ & H).
  apply H. reflexivity.
Defined.

(** What the loop of [resetAllPins] does, element by element: the records
    stay, existing channel assignments stay, and the hardware log grows by
    switch-off calls only. *)
Lemma resetAllPins_loop (l : list (Z * PinState)) :
  forall c : PinController,
  let c' := fold_left resetAllPins_body l c in
  _pinStates c' = _pinStates c /\
  (forall p k, _pinToPWMChannel c !! p = Some k -> _pinToPWMChannel c' !! p = Some k) /\
  exists events,
    hw_log (hw c') = hw_log (hw c) ++ events /\
    Forall is_switch_off events /\
    (forall pin v, (pin, digital v) ∈ l -> EvDigitalWrite pin 0 ∈ events) /\
    (forall pin v k, (pin, pwm v) ∈ l -> _pinToPWMChannel c !! pin = Some k ->
                     EvLedcWrite k 0 ∈ events).
Proof.
  induction l as [|[pin state] l IH]; intros c.
  - simpl. repeat split; auto. exists []. rewrite app_nil_r.
    repeat split; auto; intros; exfalso; eapply not_elem_of_nil; eauto.
  - cbv zeta. cbn [fold_left]. set (c1 := resetAllPins_body c (pin, state)).
    destruct (IH c1) as (Hs & Hch & events & Hlog & Hoff & Hdig & Hpwm).
    assert (Hbody : _pinStates c1 = _pinStates c /\
              (forall p k, _pinToPWMChannel c !! p = Some k ->
                           _pinToPWMChannel c1 !! p = Some k) /\
              exists ev, hw_log (hw c1) = hw_log (hw c) ++ ev /\ Forall is_switch_off ev /\
                (forall v, state = digital v -> EvDigitalWrite pin 0 ∈ ev) /\
                (forall v k, state = pwm v -> _pinToPWMChannel c !! pin = Some k ->
                             EvLedcWrite k 0 ∈ ev)).
    { subst c1. unfold resetAllPins_body.
      destruct state as [m v0 i]. simpl.
      destruct i; [|repeat split; auto; exists []; rewrite app_nil_r;
                    repeat split; auto; intros; discriminate].
      destruct m; simpl.
      - repeat split; auto. exists [EvDigitalWrite pin LOW].
        repeat split; auto.
        + repeat constructor.
        + intros. apply list_elem_of_singleton. reflexivity.
        + intros; discriminate.
      - repeat split; auto.
        + intros p k Hk. rewrite map_subscript_lookup. case_decide; subst; [|auto].
          now rewrite Hk.
        + eexists [_]. repeat split; auto.
          * repeat constructor.
          * intros; discriminate.
          * intros v k _ Hk. rewrite map_subscript_lookup, decide_True by reflexivity.
            rewrite Hk. simpl. apply list_elem_of_singleton. reflexivity.
      - repeat split; auto. exists []. rewrite app_nil_r.
        repeat split; auto; intros; discriminate.
      - repeat split; auto. exists []. rewrite app_nil_r.
        repeat split; auto; intros; discriminate. }
    destruct Hbody as (Hs1 & Hch1 & ev & Hlog1 & Hoff1 & Hdig1 & Hpwm1).
    split; [congruence|]. split; [auto|].
    exists (ev ++ events). split; [rewrite Hlog, Hlog1; now rewrite app_assoc|].
    split; [now apply Forall_app|]. split.
    + intros p v Hin. apply elem_of_app. apply elem_of_cons in Hin as [Heq | Hin].
      * injection Heq as ? ?. subst p state. left. eapply Hdig1. reflexivity.
      * right. eapply Hdig. exact Hin.
    + intros p v k Hin Hk. apply elem_of_app. apply elem_of_cons in Hin as [Heq | Hin].
      * injection Heq as ? ?. subst p state. left. eapply Hpwm1; [reflexivity | exact Hk].
      * right. eapply Hpwm; [exact Hin | auto].
Qed.

Lemma elem_of_map_in_order {V} (m : gmap Z V) (k : Z) (x : V) :
  (k, x) ∈ map_in_order m <-> m !! k = Some x.
Proof.
  unfold map_in_order. rewrite merge_sort_Permutation. apply elem_of_map_to_list.
Qed.

(** X6: [resetAllPins] always succeeds and empties the store, and on the
    way switches every output off: the hardware log grows by calls that
    write LOW to a pin or duty 0 to a channel and by nothing else; every pin
    with a digital-output record is written LOW, and every pin with a PWM
    record has duty 0 written to its channel. *)
Theorem resetAllPins_switches_outputs_off (c : PinController) :
  (resetAllPins c).1 = true /\
  store (resetAllPins c).2 = (∅, 0, ∅) /\
  exists events,
    hw_log (hw (resetAllPins c).2) = hw_log (hw c) ++ events /\
    Forall is_switch_off events /\
    (forall pin v, _pinStates c !! pin = Some (digital v) -> EvDigitalWrite pin 0 ∈ events) /\
    (forall pin v k, _pinStates c !! pin = Some (pwm v) ->
                     _pinToPWMChannel c !! pin = Some k -> EvLedcWrite k 0 ∈ events).
Proof.
  split; [reflexivity|]. split; [reflexivity|].
  destruct (resetAllPins_loop (map_in_order (_pinStates c)) c)
    as (_ & _ & events & Hlog & Hoff & Hdig & Hpwm).
  exists events. unfold resetAllPins. simpl. split; [exact Hlog|]. split; [exact Hoff|].
  split.
  - intros pin v E. apply (Hdig pin v). now apply elem_of_map_in_order.
  - intros pin v k E Hk. apply (Hpwm pin v k); [now apply elem_of_map_in_order | exact Hk].
Qed.

#[local] Instance key_le_trans {V} : Transitive (@key_le V).
Proof. intros a b c. unfold key_le. lia. Qed.

#[local] Instance key_le_total {V} : Total (@key_le V).
Proof. intros a b. unfold key_le. lia. Qed.

Lemma sorted_keys_strict {V} (l : list (Z * V)) :
  StronglySorted key_le l -> NoDup (l.*1) -> StronglySorted pin_lt l.
Proof.
  induction 1 as [|x l Hs IH Hall]; intros Hnd; [constructor|].
  simpl in Hnd. apply NoDup_cons in Hnd as [Hx Hnd].
  constructor; [now apply IH|].
  rewrite Forall_forall in *. intros y Hy.
  specialize (Hall y Hy). unfold key_le, pin_lt in *.
  assert (x.1 <> y.1); [|lia].
  intros Heq. apply Hx. rewrite Heq. apply list_elem_of_fmap. eauto.
Qed.

Lemma map_in_order_sorted {V} (m : gmap Z V) : StronglySorted pin_lt (map_in_order m).
Proof.
  apply sorted_keys_strict.
  - apply StronglySorted_merge_sort; apply _.
  - unfold map_in_order. rewrite merge_sort_Permutation. apply NoDup_fst_map_to_list.
Qed.

Lemma StronglySorted_filter_keep {A} (R : relation A) (P : A -> Prop)
    `{!forall x, Decision (P x)} (l : list A) :
  StronglySorted R l -> StronglySorted R (filter P l).
Proof.
  induction 1 as [|x l Hs IH Hall]; [constructor|].
  rewrite filter_cons. case_decide; [|exact IH].
  constructor; [exact IH|].
  rewrite Forall_forall in *. intros y Hy.
  apply list_elem_of_filter in Hy as [_ Hy]. auto.
Qed.

(** X7: what the status report says about the pins.  In a reachable state
    [getStateJSON] lists exactly the configured pins, one object each with
    the members pin, value and mode (digital or pwm), in strictly ascending
    pin order; records that are not initialised are left out. *)
Theorem getStateJSON_lists_configured_pins (c : PinController) :
  reachable c ->
  getStateJSON c = map pinObj_of (reported_pins c) /\
  (forall pin state, (pin, state) ∈ reported_pins c <->
                     _pinStates c !! pin = Some state /\ isInitialized state = true) /\
  (forall pin, isPinConfigured pin c = true <->
               exists obj, obj ∈ getStateJSON c /\ doc_get "pin" obj = Some (JInt pin)) /\
  StronglySorted pin_lt (reported_pins c).
Proof.
  intros Hreach. destruct (reachable_inv c Hreach) as [_ _ _ _ _ _ Hs].
  assert (Hmem : forall pin state, (pin, state) ∈ reported_pins c <->
                   _pinStates c !! pin = Some state /\ isInitialized state = true).
  { intros pin state. unfold reported_pins.
    rewrite list_elem_of_filter, elem_of_map_in_order. simpl. tauto. }
  assert (Heq : getStateJSON c = map pinObj_of (reported_pins c)).
  { unfold getStateJSON, reported_pins.
    assert (Hall : forall pin state, (pin, state) ∈ map_in_order (_pinStates c) ->
                     _pinStates c !! pin = Some state)
      by (intros; now apply elem_of_map_in_order).
    induction (map_in_order (_pinStates c)) as [|[pin state] l IH]; [reflexivity|].
    simpl. rewrite filter_cons. simpl.
    assert (Hl : forall p st, (p, st) ∈ l -> _pinStates c !! p = Some st)
      by (intros; apply Hall; now right).
    destruct (Hs pin state (Hall pin state ltac:(left))) as [_ [-> | [[v ->] | [v ->]]]];
      simpl; rewrite (IH Hl); reflexivity. }
  split; [exact Heq|]. split; [exact Hmem|]. split.
  - intros pin. rewrite Heq. unfold isPinConfigured. split.
    + destruct (_pinStates c !! pin) as [state|] eqn:E; [|discriminate].
      intros Hi. exists (pinObj_of (pin, state)). split; [|reflexivity].
      apply list_elem_of_fmap. exists (pin, state). split; [reflexivity|].
      now apply Hmem.
    + intros (obj & Hin & Hpin). apply list_elem_of_fmap in Hin as ([p state] & -> & Hin).
      simpl in Hpin. injection Hpin as ->.
      apply Hmem in Hin as [-> Hi]. exact Hi.
  - unfold reported_pins. apply StronglySorted_filter_keep, map_in_order_sorted.
Qed.

Lemma getStateJSON_lists_configured_pins_witness :
  reachable pin13_high /\ getStateJSON pin13_high = map pinObj_of (reported_pins pin13_high).
Proof.
  assert (Hr : reachable pin13_high).
  { exists quiet_world, [OpSetDigital 13 1]. reflexivity. }
  split; [exact Hr|].
  exact (proj1 (getStateJSON_lists_configured_pins pin13_high Hr)).
Defined.

(** X8: reading or toggling a PWM pin.  For a pin that is a PWM output,
    [getDigital] does not return the duty: it switches the hardware pin to
    INPUT and returns the level read, while the store still says PWM.
    [toggle] then turns the pin into a digital output that holds the
    complement of that level; the channel assignment stays behind. *)
Theorem toggle_on_pwm_pin (pin v0 : Z) (c : PinController) :
  isValidPin pin = true -> _pinStates c !! pin = Some (pwm v0) ->
  let level := hw_world (hw c) (hw_log (hw c) ++ [EvPinMode pin INPUT]) pin in
  (getDigital pin c).1 = Z.b2z level /\
  hw_log (hw (getDigital pin c).2)
    = hw_log (hw c) ++ [EvPinMode pin INPUT; EvDigitalRead pin level] /\
  store (getDigital pin c).2 = store c /\
  (toggle pin c).1 = true /\
  _pinStates (toggle pin c).2 = <[pin := digital (1 - Z.b2z level)]> (_pinStates c) /\
  _pinToPWMChannel (toggle pin c).2 = _pinToPWMChannel c /\
  _nextPWMChannel (toggle pin c).2 = _nextPWMChannel c.
Proof.
  intros Hpin E level.
  assert (Hm : in_mode DIGITAL_OUTPUT pin c = false)
    by (unfold in_mode; now rewrite E).
  unfold toggle. rewrite Hpin. simpl.
  rewrite getDigital_input, read_as_input_eq by assumption. fold level. simpl.
  repeat split; try reflexivity;
    replace (Z.b2z level <? 0) with false by (now destruct level);
    match goal with |- context [setDigital pin ?x ?c1] =>
      assert (Hx : x = 1 - Z.b2z level) by (now destruct level);
      rewrite Hx;
      destruct (setDigital_eq pin (1 - Z.b2z level) c1 Hpin) as (h & -> & _);
      [destruct level; simpl; lia|]
    end; reflexivity.
Qed.

Lemma toggle_on_pwm_pin_witness :
  (toggle 13 pin13_pwm).1 = true /\
  _pinStates (toggle 13 pin13_pwm).2 !! 13 = Some (digital 1).
Proof.
  destruct (toggle_on_pwm_pin 13 100 pin13_pwm eq_refl eq_refl)
    as (_ & _ & _ & H1 & H2 & _).
  split; [exact H1|]. rewrite H2. reflexivity.
Defined.

(** ** Further properties of the parser and the executors *)

(** X9: command names round-trip.  Every command type is recovered from its
    name, and a string that names a command is that command's name: the
    eight keywords are the only strings [stringToCommandType] accepts. *)
Theorem command_names_round_trip (t : CommandType) (s : string) :
  stringToCommandType (commandTypeToString t) = t /\
  (stringToCommandType s <> INVALID -> commandTypeToString (stringToCommandType s) = s).
Proof.
  split; [now destruct t|].
  unfold stringToCommandType.
  repeat match goal with
         | |- context [String.eqb s ?k] => destruct (String.eqb_spec s k); [subst; reflexivity|]
         end.
  congruence.
Qed.

(** Closes a goal "not valid implies a reason is recorded" once the
    command is known. *)
Ltac reason := simpl; intros Hvalid; first [discriminate Hvalid | intros Hempty; discriminate Hempty].

Lemma check_value_outcome (t : CommandType) (pin v : Z) :
  t <> INVALID ->
  isValid (check_value t pin v) = false -> errorMessage (check_value t pin v) <> ""%string.
Proof.
  intros Ht. unfold check_value. destruct t; simpl; try reason; try contradiction.
  - destruct (negb (v =? 0) && negb (v =? 1)); simpl; reason.
  - destruct ((v <? 0) || (255 <? v)); simpl; reason.
Qed.

Lemma parseJSON_reason (lib : JsonLibrary) (jsonString : string) :
  isValid (parseJSON lib jsonString) = false ->
  errorMessage (parseJSON lib jsonString) <> ""%string.
Proof.
  unfold parseJSON.
  destruct (deserializeJson lib jsonString) as [error|doc]; [reason|].
  destruct (negb (containsKey "cmd" doc)); [reason|]. cbv zeta.
  generalize (AString.toUpperCase (as_String lib (doc_get "cmd" doc))). intros kw.
  generalize (as_int lib (doc_get "pin" doc)) (as_int lib (doc_get "value" doc)).
  intros pin v.
  destruct (stringToCommandType kw); try reason;
    (destruct (negb (containsKey "pin" doc)); [reason|]);
    (destruct (negb (isValidPin pin)); [reason|]);
    try reason;
    (destruct (negb (containsKey "value" doc)); [reason|]);
    apply check_value_outcome; discriminate.
Qed.

Lemma parseText_reason (textString : string) :
  isValid (parseText textString) = false -> errorMessage (parseText textString) <> ""%string.
Proof.
  unfold parseText. cbv zeta.
  destruct (if AString.indexOf AString.chr_space (AString.toUpperCase textString) =? -1
            then _ else _) as [cmdStr params].
  generalize (AString.trim params). generalize (AString.trim cmdStr). intros kw ps.
  repeat match goal with
         | |- context [AString.toInt ?s] => generalize (AString.toInt s); intro
         end.
  generalize (AString.indexOf AString.chr_space ps). generalize (AString.len ps).
  intros n spacePos.
  destruct (stringToCommandType kw); cbv iota; try reason.
  - destruct (spacePos =? -1); [reason|].
    destruct (negb (isValidPin _)); [reason|]. apply check_value_outcome; discriminate.
  - destruct (n =? 0); [reason|].
    destruct (negb (isValidPin _)); reason.
  - destruct (n =? 0); [reason|].
    destruct (negb (isValidPin _)); reason.
  - destruct (spacePos =? -1); [reason|].
    destruct (negb (isValidPin _)); [reason|]. apply check_value_outcome; discriminate.
Qed.

(** Every parse is either a well-formed command or a rejection with a
    reason. *)
Lemma parse_outcome (lib : JsonLibrary) (input : string) :
  well_formed (parse lib input) \/ rejected (parse lib input).
Proof.
  destruct (isValid (parse lib input)) eqn:Hv; [left; now apply parse_well_formed|].
  right. split.
  - unfold isValid in Hv. destruct (cmd_type (parse lib input)); congruence.
  - revert Hv. unfold parse. destruct (AString.len input =? 0); [discriminate|]. cbv zeta.
    destruct (AString.startsWith _ _); [apply parseJSON_reason | apply parseText_reason].
Qed.

(** X10: no input is dropped silently and no rejected input reaches the
    pins.  Whenever the parser rejects an input, the network executor
    answers with success=false, command INVALID and a message that is the
    parser's non-empty reason, and returns the controller untouched; the
    console handler prints the same for any non-blank line. *)
Theorem rejected_input_is_answered (lib : JsonLibrary) (input : string)
    (hasRestartCallback : bool) (c : PinController) :
  isValid (parse lib input) = false ->
  let reason := errorMessage (parse lib input) in
  let doc := generateResponse (parse lib input) false "" (-1) in
  reason <> ""%string /\
  processCommand lib input c = (ReplyJson doc, c) /\
  doc_get "success" doc = Some (JBool false) /\
  doc_get "command" doc = Some (JStr "INVALID") /\
  doc_get "message" doc = Some (JStr reason) /\
  ((AString.len (AString.trim input) =? 0) = false ->
   isValid (parse lib (AString.trim input)) = false ->
   processSerialCommands lib hasRestartCallback input c
   = (Some (ReplyJson (generateResponse (parse lib (AString.trim input)) false "" (-1)), None), c)).
Proof.
  intros Hv reason doc.
  destruct (parse_outcome lib input) as [[_ Hwf] | [Ht Hr]].
  - unfold isValid in Hv. destruct (cmd_type (parse lib input)); try discriminate; contradiction.
  - destruct (generateResponse_members (parse lib input) false "" (-1))
      as (Hs & Hc & _ & _ & Hm).
    fold doc in Hs, Hc, Hm. rewrite Ht in Hc.
    assert (Hres : resulting_message (parse lib input) false "" = reason) by reflexivity.
    rewrite Hres in Hm.
    assert (Hlen : (0 <? AString.len reason) = true).
    { destruct reason as [|a s]; [contradiction|]. unfold AString.len. simpl String.length.
      apply Z.ltb_lt. lia. }
    rewrite Hlen in Hm.
    repeat split; try assumption.
    + unfold processCommand. cbv zeta. now rewrite Hv.
    + intros Hlen' Hv'. unfold processSerialCommands. cbv zeta. now rewrite Hlen', Hv'.
Qed.

Lemma rejected_input_is_answered_witness :
  doc_get "message" (generateResponse (parse (library_yielding []) "PWM 13 300") false "" (-1))
  = Some (JStr "PWM value must be 0-255") /\
  processCommand (library_yielding []) "PWM 13 300" pin13_high
  = (ReplyJson (generateResponse (parse (library_yielding []) "PWM 13 300") false "" (-1)),
     pin13_high).
Proof.
  destruct (rejected_input_is_answered (library_yielding []) "PWM 13 300" true pin13_high eq_refl)
    as (_ & H2 & _ & _ & H5 & _).
  split; [exact H5 | exact H2].
Defined.

Lemma processCommand_reachable (lib : JsonLibrary) (input : string) (c : PinController) :
  reachable c -> reachable (processCommand lib input c).2.
Proof.
  intros Hr. unfold processCommand. cbv zeta.
  destruct (negb (isValid (parse lib input))); [exact Hr|].
  generalize (parse lib input). intros cmd.
  destruct (cmd_type cmd); simpl; try exact Hr.
  - pose proof (reachable_step c (OpSetDigital (cmd_pin cmd) (cmd_value cmd)) Hr) as H.
    simpl in H. now destruct (setDigital (cmd_pin cmd) (cmd_value cmd) c).
  - pose proof (reachable_step c (OpGetDigital (cmd_pin cmd)) Hr) as H.
    simpl in H. now destruct (getDigital (cmd_pin cmd) c).
  - pose proof (reachable_step c (OpToggle (cmd_pin cmd)) Hr) as H.
    simpl in H. destruct (toggle (cmd_pin cmd) c) as [ok c1]. simpl in H.
    destruct ok; [|exact H].
    pose proof (reachable_step c1 (OpGetDigital (cmd_pin cmd)) H) as H'.
    simpl in H'. now destruct (getDigital (cmd_pin cmd) c1).
  - pose proof (reachable_step c (OpSetPWM (cmd_pin cmd) (cmd_value cmd)) Hr) as H.
    simpl in H. now destruct (setPWM (cmd_pin cmd) (cmd_value cmd) c).
Qed.

(** X11: digital commands that pass the parser cannot fail.  On a reachable
    controller, an input the parser accepts as SET, GET or TOGGLE is
    answered with success=true, the command's pin and a value of 0 or 1.
    For SET the value is the one asked for, and for SET and TOGGLE the store
    then holds a digital-output record with exactly the reported value; GET
    leaves the store as it was.  The controller stays reachable. *)
Theorem digital_commands_succeed (lib : JsonLibrary) (input : string) (c : PinController) :
  reachable c ->
  cmd_type (parse lib input) = SET \/ cmd_type (parse lib input) = GET
  \/ cmd_type (parse lib input) = TOGGLE ->
  exists doc c' v,
    processCommand lib input c = (ReplyJson doc, c') /\
    reachable c' /\
    doc_get "success" doc = Some (JBool true) /\
    doc_get "pin" doc = Some (JInt (cmd_pin (parse lib input))) /\
    doc_get "value" doc = Some (JInt v) /\ (v = 0 \/ v = 1) /\
    (cmd_type (parse lib input) = SET -> v = cmd_value (parse lib input)) /\
    (cmd_type (parse lib input) = GET -> store c' = store c) /\
    (cmd_type (parse lib input) <> GET ->
       _pinStates c' !! cmd_pin (parse lib input) = Some (digital v)).
Proof.
  intros Hr Ht.
  pose proof (processCommand_reachable lib input c Hr) as Hr'.
  assert (Hvalid : isValid (parse lib input) = true)
    by (unfold isValid; destruct Ht as [-> | [-> | ->]]; reflexivity).
  pose proof (parse_well_formed lib input Hvalid) as [_ Hwf].
  revert Hr'. unfold processCommand. cbv zeta. rewrite Hvalid. simpl negb. cbv iota.
  revert Ht Hwf. generalize (parse lib input). intros cmd Ht Hwf.
  assert (Hmem : forall success message rv, 0 <= cmd_pin cmd -> 0 <= rv ->
            let doc := generateResponse cmd success message rv in
            doc_get "success" doc = Some (JBool success) /\
            doc_get "pin" doc = Some (JInt (cmd_pin cmd)) /\
            doc_get "value" doc = Some (JInt rv)).
  { intros success message rv Hp Hv doc.
    destruct (generateResponse_members cmd success message rv) as (H1 & _ & H3 & H4 & _).
    fold doc in H1, H3, H4.
    destruct (Z.leb_spec 0 (cmd_pin cmd)); [|lia].
    destruct (Z.leb_spec 0 rv); [|lia]. auto. }
  destruct Ht as [Ht | [Ht | Ht]]; rewrite Ht in *; destruct Hwf as [Hpin Hv];
    pose proof (isValidPin_range _ Hpin) as Hrange.
  - destruct (setDigital_eq (cmd_pin cmd) (cmd_value cmd) c Hpin Hv) as (h & -> & _).
    intros Hr'. eexists _, _, (cmd_value cmd). split; [reflexivity|].
    destruct (Hmem true "Pin set successfully"%string (cmd_value cmd)) as (H1 & H2 & H3);
      [lia|lia|].
    split_and!; auto; try discriminate. intros _. simpl. apply lookup_insert_eq.
  - pose proof (getDigital_bit (cmd_pin cmd) c (reachable_inv c Hr) Hpin) as Hb.
    pose proof (getDigital_store (cmd_pin cmd) c) as Hst.
    destruct (getDigital (cmd_pin cmd) c) as [rv c1]. simpl in *.
    intros Hr'. eexists _, c1, rv.
    split; [reflexivity|].
    match goal with |- context [generateResponse cmd ?s ?m rv] =>
      destruct (Hmem s m rv) as (H1 & H2 & H3); [lia|lia|]
    end.
    assert (Hle : (0 <=? rv) = true) by (destruct Hb as [-> | ->]; reflexivity).
    rewrite Hle in *.
    split_and!; auto; try discriminate. intros H. now contradict H.
  - destruct (toggle_cases (cmd_pin cmd) c) as [Hf | (_ & v & h & Hvv & Heq)].
    + exfalso.
      pose proof (toggle_as_get_set (cmd_pin cmd) c (reachable_inv c Hr) Hpin) as Hts.
      pose proof (getDigital_bit (cmd_pin cmd) c (reachable_inv c Hr) Hpin) as Hb.
      destruct (setDigital_eq (cmd_pin cmd) (1 - (getDigital (cmd_pin cmd) c).1)
                  (getDigital (cmd_pin cmd) c).2 Hpin) as (h & He & _); [lia|].
      congruence.
    + rewrite Heq.
      match goal with |- context [getDigital ?p ?c1] =>
        assert (Hg : getDigital p c1 = (v, c1))
          by (apply (getDigital_cached p c1 (digital v) Hpin);
              [simpl; apply lookup_insert_eq | reflexivity | reflexivity])
      end.
      rewrite Hg. intros Hr'. eexists _, _, v. split; [reflexivity|].
      destruct (Hmem true "Pin toggled successfully"%string v) as (H1 & H2 & H3);
        [lia|lia|].
      split_and!; auto; try discriminate. intros _. simpl. apply lookup_insert_eq.
Qed.

Lemma digital_commands_succeed_witness :
  exists doc c' v,
    processCommand (library_yielding []) "toggle 13" pin13_high = (ReplyJson doc, c') /\
    doc_get "success" doc = Some (JBool true) /\
    doc_get "value" doc = Some (JInt v) /\
    _pinStates c' !! 13 = Some (digital v).
Proof.
  assert (Hr : reachable pin13_high).
  { exists quiet_world, [OpSetDigital 13 1]. reflexivity. }
  destruct (digital_commands_succeed (library_yielding []) "toggle 13" pin13_high Hr)
    as (doc & c' & v & H1 & _ & H3 & _ & H5 & _ & _ & _ & H9).
  { right. right. reflexivity. }
  exists doc, c', v.
  split; [exact H1|]. split; [exact H3|]. split; [exact H5|]. apply H9.
  assert (Ht : cmd_type (parse (library_yielding []) "toggle 13") = TOGGLE)
    by (vm_compute; reflexivity).
  rewrite Ht. discriminate.
Defined.



(** *** Case *)

Lemma toupper_idem (a : Ascii.ascii) : AString.toupper (AString.toupper a) = AString.toupper a.
Proof. destruct a as [[] [] [] [] [] [] [] []]; reflexivity. Qed.

Lemma isspace_toupper (a : Ascii.ascii) : AString.isspace (AString.toupper a) = AString.isspace a.
Proof. destruct a as [[] [] [] [] [] [] [] []]; reflexivity. Qed.

Lemma lbrace_toupper (a : Ascii.ascii) :
  Ascii.eqb (AString.toupper a) AString.chr_lbrace = Ascii.eqb a AString.chr_lbrace.
Proof. destruct a as [[] [] [] [] [] [] [] []]; reflexivity. Qed.

Lemma toUpperCase_list (s : string) :
  String.list_ascii_of_string (AString.toUpperCase s)
  = map AString.toupper (String.list_ascii_of_string s).
Proof. unfold AString.toUpperCase. apply String.list_ascii_of_string_of_list_ascii. Qed.

Lemma toUpperCase_idem (s : string) :
  AString.toUpperCase (AString.toUpperCase s) = AString.toUpperCase s.
Proof.
  unfold AString.toUpperCase at 1. rewrite toUpperCase_list, map_map.
  unfold AString.toUpperCase. f_equal. apply map_ext. intros a. apply toupper_idem.
Qed.

Lemma toUpperCase_len (s : string) : AString.len (AString.toUpperCase s) = AString.len s.
Proof.
  unfold AString.len. f_equal. induction s as [|a s IH]; [reflexivity|].
  change (AString.toUpperCase (String a s))
    with (String (AString.toupper a) (AString.toUpperCase s)).
  simpl. now rewrite IH.
Qed.

Lemma drop_space_toupper (l : list Ascii.ascii) :
  AString.drop_space (map AString.toupper l) = map AString.toupper (AString.drop_space l).
Proof.
  induction l as [|a l IH]; [reflexivity|]. simpl. rewrite isspace_toupper.
  destruct (AString.isspace a); [exact IH | reflexivity].
Qed.

Lemma trim_toUpperCase (s : string) :
  AString.trim (AString.toUpperCase s) = AString.toUpperCase (AString.trim s).
Proof.
  unfold AString.trim at 1. rewrite toUpperCase_list.
  rewrite drop_space_toupper, <- map_rev, drop_space_toupper, <- map_rev.
  unfold AString.toUpperCase at 1, AString.trim.
  now rewrite String.list_ascii_of_string_of_list_ascii.
Qed.

Lemma startsWith_lbrace_toUpperCase (s : string) :
  AString.startsWith AString.chr_lbrace (AString.toUpperCase s)
  = AString.startsWith AString.chr_lbrace s.
Proof.
  destruct s as [|a s]; [reflexivity|].
  change (AString.toUpperCase (String a s))
    with (String (AString.toupper a) (AString.toUpperCase s)).
  simpl. apply lbrace_toupper.
Qed.

Lemma parseText_toUpperCase (s : string) : parseText (AString.toUpperCase s) = parseText s.
Proof. unfold parseText. now rewrite toUpperCase_idem. Qed.

Lemma parse_toUpperCase (lib : JsonLibrary) (s : string) :
  AString.startsWith AString.chr_lbrace (AString.trim s) = false ->
  parse lib (AString.toUpperCase s) = parse lib s.
Proof.
  intros Hs. unfold parse. rewrite toUpperCase_len, trim_toUpperCase.
  rewrite startsWith_lbrace_toUpperCase, Hs. cbv zeta.
  now rewrite parseText_toUpperCase.
Qed.

(** X13: the text protocol does not look at letter case.  Two inputs that
    are equal up to the case of their letters, and are not structured
    messages (the trimmed input does not start with an opening brace),
    parse to the same command: same type, pin, value and message. *)
Theorem text_protocol_ignores_case (lib : JsonLibrary) (s s' : string) :
  AString.toUpperCase s = AString.toUpperCase s' ->
  AString.startsWith AString.chr_lbrace (AString.trim s) = false ->
  parse lib s = parse lib s'.
Proof.
  intros Heq Hs.
  assert (Hs' : AString.startsWith AString.chr_lbrace (AString.trim s') = false).
  { rewrite <- startsWith_lbrace_toUpperCase, <- trim_toUpperCase, <- Heq.
    now rewrite trim_toUpperCase, startsWith_lbrace_toUpperCase. }
  rewrite <- (parse_toUpperCase lib s Hs), <- (parse_toUpperCase lib s' Hs').
  now rewrite Heq.
Qed.

Lemma text_protocol_ignores_case_witness :
  parse (library_yielding []) "Set 13 1" = parse (library_yielding []) "sEt 13 1".
Proof.
  apply (text_protocol_ignores_case (library_yielding []) "Set 13 1" "sEt 13 1");
    reflexivity.
Defined.

(** *** Text forms *)

Lemma commandTypeToString_inj (a b : CommandType) :
  commandTypeToString a = commandTypeToString b -> a = b.
Proof. destruct a, b; simpl; intros H; try reflexivity; discriminate H. Qed.

Lemma Command_eqb_eq (a b : Command) : Command_eqb a b = true -> a = b.
Proof.
  unfold Command_eqb. destruct a as [t p v e], b as [t' p' v' e']. simpl.
  rewrite !andb_true_iff. intros [[[Ht Hp] Hv] He].
  apply String.eqb_eq in Ht, He. apply commandTypeToString_inj in Ht.
  apply Z.eqb_eq in Hp, Hv. congruence.
Qed.

Lemma well_formed_listed (cmd : Command) :
  well_formed cmd -> In cmd all_well_formed_commands.
Proof.
  destruct cmd as [t p v e]. unfold well_formed.
  cbn [errorMessage cmd_type cmd_pin cmd_value]. intros [-> H].
  unfold all_well_formed_commands. rewrite in_app_iff, in_flat_map.
  destruct t; try contradiction;
    try (right; destruct H as [-> ->]; simpl; tauto);
    left; destruct H as [Hp Hv]; apply isValidPin_from_In in Hp;
    exists p; (split; [exact Hp|]); rewrite !in_app_iff.
  - left. destruct Hv as [-> | ->]; simpl; tauto.
  - right. right. subst v. simpl. tauto.
  - right. right. subst v. simpl. tauto.
  - right. left. rewrite in_map_iff. exists v. split; [reflexivity|].
    apply list_elem_of_In, elem_of_seqZ. lia.
Qed.

Lemma text_forms_checked (lib : JsonLibrary) :
  forallb (fun cmd => Command_eqb (parse lib (text_of_command cmd)) cmd)
          all_well_formed_commands = true.
Proof. vm_compute. reflexivity. Qed.

(** X14: the text form of every well-formed command parses back to it.  For
    each allowed pin, SET with 0 or 1, PWM with any duty from 0 to 255, GET
    and TOGGLE, and the four commands without a pin: writing the command as
    keyword, pin and value separated by single spaces and parsing that line
    gives the command again, with no error message. *)
Theorem text_form_round_trip (lib : JsonLibrary) (cmd : Command) :
  well_formed cmd -> parse lib (text_of_command cmd) = cmd.
Proof.
  intros Hwf. apply Command_eqb_eq.
  pose proof (text_forms_checked lib) as Hall. rewrite forallb_forall in Hall.
  apply Hall. now apply well_formed_listed.
Qed.

Lemma text_form_round_trip_witness :
  text_of_command (mkCommand PWM 27 255 "") = "PWM 27 255"%string /\
  parse (library_yielding []) "PWM 27 255" = mkCommand PWM 27 255 "".
Proof.
  split; [reflexivity|].
  apply (text_form_round_trip (library_yielding []) (mkCommand PWM 27 255 "")).
  split; [reflexivity|]. simpl. split; [reflexivity|lia].
Defined.

(** ** Further properties of the supervisor *)

Lemma supervisor_step_errorCount (w w' : WatchdogManager) (call : SupervisorCall) :
  supervisor_step w call = Returns w' ->
  _errorCount w' = if registered call then int_incr (_errorCount w) else _errorCount w.
Proof.
  destruct call; simpl.
  - intros [= <-]. unfold feed. now destruct (_ <? FEED_INTERVAL).
  - unfold registerError. simpl.
    destruct (Config.MAX_CONSECUTIVE_ERRORS <=? _); simpl; [discriminate|].
    now intros [= <-].
  - now intros [= <-].
  - intros [= <-]. unfold suspend. now destruct (_ && _).
  - intros [= <-]. unfold resume. now destruct (_ && _).
Qed.

(** X15: the total error count only counts up.  Over any sequence of
    supervisor calls (feed, registerError, clearErrors, suspend, resume) that
    all return, the total grows by exactly the number of registerError calls,
    as long as it stays within [int]; feeding, clearing, suspending and
    resuming never touch it. *)
Theorem total_errors_are_counted (calls : list SupervisorCall) (w w' : WatchdogManager) :
  supervisor_run calls w = Some w' ->
  _errorCount w + count_registered calls <= AString.INT_MAX ->
  getErrorCount w' = _errorCount w + count_registered calls.
Proof.
  unfold getErrorCount. revert w.
  induction calls as [|call calls IH]; intros w Hrun Hmax.
  - injection Hrun as <-. unfold count_registered. simpl. lia.
  - simpl in Hrun. destruct (supervisor_step w call) as [w1|] eqn:Hstep; [|discriminate].
    apply supervisor_step_errorCount in Hstep.
    assert (Hcnt : count_registered (call :: calls)
                   = (if registered call then 1 else 0) + count_registered calls).
    { unfold count_registered. rewrite filter_cons.
      destruct (registered call); simpl; [|reflexivity]. lia. }
    rewrite Hcnt in *.
    assert (Hpos : 0 <= count_registered calls) by (unfold count_registered; lia).
    rewrite (IH w1 Hrun); rewrite Hstep; destruct (registered call);
      unfold int_incr; try lia;
      destruct (Z.leb_spec (_errorCount w + 1) AString.INT_MAX); lia.
Qed.

Lemma total_errors_are_counted_witness :
  exists w', supervisor_run [DoRegisterError "a" 5; DoFeed 2000; DoClearErrors;
                             DoSuspend; DoRegisterError "b" 2500; DoResume 2600] booted
             = Some w' /\ getErrorCount w' = 2.
Proof.
  eexists. split; [reflexivity|].
  apply (total_errors_are_counted
           [DoRegisterError "a" 5; DoFeed 2000; DoClearErrors;
            DoSuspend; DoRegisterError "b" 2500; DoResume 2600] booted);
    [reflexivity | vm_compute; discriminate].
Defined.

Lemma supervisor_step_below_threshold (w w' : WatchdogManager) (call : SupervisorCall) :
  supervisor_step w call = Returns w' -> shouldRestart w = false -> shouldRestart w' = false.
Proof.
  unfold shouldRestart. destruct call; simpl.
  - intros [= <-] H. unfold feed. destruct (_ <? FEED_INTERVAL); [exact H|]. simpl.
    destruct (_ && _); [reflexivity | exact H].
  - unfold registerError. simpl.
    destruct (Config.MAX_CONSECUTIVE_ERRORS <=? _) eqn:E; simpl; [discriminate|].
    now intros [= <-].
  - now intros [= <-].
  - intros [= <-] H. unfold suspend. now destruct (_ && _).
  - intros [= <-] H. unfold resume. now destruct (_ && _).
Qed.

(** X16: with restart on critical errors compiled in, the supervisor is
    never left at the threshold.  If [shouldRestart] is false to begin with,
    it is false after any sequence of supervisor calls that all return; the
    one call that reaches the threshold does not return. *)
Theorem shouldRestart_false_while_running
    (calls : list SupervisorCall) (w w' : WatchdogManager) :
  shouldRestart w = false -> supervisor_run calls w = Some w' -> shouldRestart w' = false.
Proof.
  revert w. induction calls as [|call calls IH]; intros w Hw Hrun.
  - now injection Hrun as <-.
  - simpl in Hrun. destruct (supervisor_step w call) as [w1|] eqn:Hstep; [|discriminate].
    apply (IH w1); [|exact Hrun].
    now apply (supervisor_step_below_threshold w w1 call).
Qed.

Lemma shouldRestart_false_while_running_witness :
  shouldRestart booted = false /\
  exists w', supervisor_run [DoRegisterError "a" 5; DoRegisterError "b" 6] booted = Some w'
             /\ shouldRestart w' = false.
Proof.
  split; [reflexivity|]. eexists. split; [reflexivity|].
  apply (shouldRestart_false_while_running
           [DoRegisterError "a" 5; DoRegisterError "b" 6] booted); reflexivity.
Defined.

Lemma wrap32_small (z : Z) : 0 <= z < 2 ^ 32 -> wrap32 z = z.
Proof. intros H. unfold wrap32. now apply Z.mod_small. Qed.

Lemma wrap32_diff (t d : Z) : 0 <= d < 2 ^ 32 -> wrap32 (wrap32 (t + d) - t) = d.
Proof.
  intros H. unfold wrap32. rewrite Zminus_mod_idemp_l.
  replace (t + d - t) with d by lia. now apply Z.mod_small.
Qed.

(** X17: the rate limiter of [feed].  A [feed] that comes less than
    [FEED_INTERVAL] after the last accepted feed (or after [resume]) changes
    nothing at all, not even the consecutive-error counter of an error whose
    cooldown has passed; in particular feeding twice at the same time is
    feeding once.  Timestamps are compared modulo 2^32, so this also holds
    across the wrap-around of [millis()]. *)
Theorem feed_is_rate_limited (t d : Z) (w : WatchdogManager) :
  0 <= d < FEED_INTERVAL ->
  feed (wrap32 (_lastFeed w + d)) w = w /\
  feed t (feed t w) = feed t w /\
  (_hwWatchdogEnabled w = true -> feed (wrap32 (t + d)) (resume t w) = resume t w).
Proof.
  intros Hd. assert (Hd' : 0 <= d < 2 ^ 32) by (unfold FEED_INTERVAL in Hd; lia).
  assert (Hlimit : forall u w0, wrap32 (u - _lastFeed w0) < FEED_INTERVAL -> feed u w0 = w0).
  { intros u w0 H. unfold feed.
    destruct (Z.ltb_spec (wrap32 (u - _lastFeed w0)) FEED_INTERVAL); [reflexivity|lia]. }
  assert (Hthrottle : forall u w0, _lastFeed w0 = u -> feed (wrap32 (u + d)) w0 = w0).
  { intros u w0 <-. apply Hlimit. rewrite wrap32_diff by exact Hd'. lia. }
  split; [now apply Hthrottle|]. split.
  - destruct (Z.ltb_spec (wrap32 (t - _lastFeed w)) FEED_INTERVAL) as [E|E].
    + now rewrite !(Hlimit t w E).
    + apply Hlimit.
      assert (Hlf : _lastFeed (feed t w) = t).
      { unfold feed. destruct (Z.ltb_spec (wrap32 (t - _lastFeed w)) FEED_INTERVAL);
          [lia | reflexivity]. }
      rewrite Hlf, Z.sub_diag. unfold FEED_INTERVAL. reflexivity.
  - intros Hhw. apply Hthrottle. unfold resume. rewrite Hhw. reflexivity.
Qed.

Lemma feed_is_rate_limited_witness :
  feed (wrap32 (_lastFeed booted + 999)) booted = booted.
Proof.
  apply (feed_is_rate_limited 0 999 booted). unfold FEED_INTERVAL. lia.
Defined.

(** X18: the uptime clock.  [d] milliseconds after [begin], with [d] below
    2^32, [getUptimeSeconds] gives [d / 1000], also when [millis()] has
    wrapped around in between; it is never more than 4294967 seconds. *)
Theorem uptime_counts_from_begin (t0 d now : Z) (w : WatchdogManager) :
  0 <= d < 2 ^ 32 ->
  getUptimeSeconds (wrap32 (t0 + d)) (begin t0 w) = d / 1000 /\
  0 <= getUptimeSeconds now w <= 4294967.
Proof.
  intros Hd. unfold getUptimeSeconds. simpl. rewrite wrap32_diff by exact Hd.
  split; [reflexivity|].
  assert (H : 0 <= wrap32 (now - _startTime w) < 2 ^ 32)
    by (unfold wrap32; apply Z.mod_pos_bound; lia).
  split.
  - apply Z.div_pos; lia.
  - apply Z.lt_succ_r. apply Z.div_lt_upper_bound; lia.
Qed.

Lemma uptime_counts_from_begin_witness :
  getUptimeSeconds (wrap32 (4294967000 + 5000)) (begin 4294967000 WatchdogManager_new) = 5.
Proof.
  apply (uptime_counts_from_begin 4294967000 5000 0 WatchdogManager_new). lia.
Defined.

(** ** The connection multiplexer *)

Lemma accept_into_full (newcomer : WiFiClient) (slots : list WiFiClient) :
  Forall (fun cl => slot_free cl = false) slots -> accept_into newcomer slots = None.
Proof.
  induction 1 as [|cl rest Hcl _ IH]; [reflexivity|]. simpl. now rewrite Hcl, IH.
Qed.

Lemma accept_into_first_free (newcomer cl : WiFiClient) (busy rest : list WiFiClient) :
  Forall (fun cl => slot_free cl = false) busy -> slot_free cl = true ->
  accept_into newcomer (busy ++ cl :: rest) = Some (busy ++ welcomed newcomer :: rest).
Proof.
  intros Hbusy Hfree. induction Hbusy as [|b busy Hb _ IH]; simpl.
  - now rewrite Hfree.
  - now rewrite Hb, IH.
Qed.

(** X19: a full server turns the newcomer away and nothing else changes.
    When every slot holds a connected client and a new connection is
    waiting, the newcomer is sent "ERROR: Server full" and closed, no slot is
    given up, and the slots and the pin controller come out of the tick
    exactly as they would have with no connection waiting. *)
Theorem full_server_turns_newcomer_away
    (lib : JsonLibrary) (newcomer : WiFiClient) (slots : list WiFiClient) (c : PinController) :
  Forall (fun cl => slot_free cl = false) slots ->
  exists slots' c',
    handleTCPClients lib None slots c = (slots', None, c') /\
    handleTCPClients lib (Some newcomer) slots c
    = (slots',
       Some {| is_set := false; connected := false; inbox := [];
               sent := sent newcomer ++ [SentLine "ERROR: Server full"] |},
       c').
Proof.
  intros Hfull. unfold handleTCPClients. rewrite (accept_into_full _ _ Hfull).
  destruct (serve_clients lib slots c) as [slots' c']. exists slots', c'.
  split; reflexivity.
Qed.

Lemma full_server_turns_newcomer_away_witness :
  exists slots' c',
    handleTCPClients (library_yielding []) (Some WiFiClient_new)
                     [idle_client; idle_client; idle_client; idle_client] pin13_high
    = (slots',
       Some {| is_set := false; connected := false; inbox := [];
               sent := [SentLine "ERROR: Server full"] |},
       c').
Proof.
  destruct (full_server_turns_newcomer_away (library_yielding []) WiFiClient_new
              [idle_client; idle_client; idle_client; idle_client] pin13_high)
    as (slots' & c' & _ & H).
  - repeat constructor.
  - exists slots', c'. exact H.
Defined.

(** X20: a newcomer gets the first free slot.  When the slots before some
    free slot are all taken, the waiting connection is put into that slot
    and greeted with the two welcome lines; nobody is turned away, and the
    tick then goes on as if the newcomer had been in that slot already.  A
    slot is free when its handle is unset or its connection is closed. *)
Theorem newcomer_gets_first_free_slot
    (lib : JsonLibrary) (newcomer cl : WiFiClient) (busy rest : list WiFiClient)
    (c : PinController) :
  Forall (fun cl => slot_free cl = false) busy -> slot_free cl = true ->
  handleTCPClients lib (Some newcomer) (busy ++ cl :: rest) c
  = handleTCPClients lib None (busy ++ welcomed newcomer :: rest) c /\
  sent (welcomed newcomer)
  = sent newcomer ++ [SentLine "ESP32 Pin Controller Ready";
                      SentLine "Type HELP for command list"].
Proof.
  intros Hbusy Hfree. split.
  - unfold handleTCPClients. now rewrite (accept_into_first_free _ _ _ _ Hbusy Hfree).
  - unfold welcomed, client_println. simpl. now rewrite <- app_assoc.
Qed.

Lemma newcomer_gets_first_free_slot_witness :
  handleTCPClients (library_yielding []) (Some idle_client)
                   [idle_client; WiFiClient_new; WiFiClient_new; idle_client] pin13_high
  = handleTCPClients (library_yielding []) None
                     [idle_client; welcomed idle_client; WiFiClient_new; idle_client]
                     pin13_high.
Proof.
  apply (newcomer_gets_first_free_slot (library_yielding []) idle_client WiFiClient_new
           [idle_client] [WiFiClient_new; idle_client] pin13_high).
  - repeat constructor.
  - reflexivity.
Defined.

Lemma serve_client_served (lib : JsonLibrary) (cl : WiFiClient) (c : PinController) :
  served cl (serve_client lib cl c).1 /\
  (reachable c -> reachable (serve_client lib cl c).2).
Proof.
  unfold serve_client. destruct cl as [s k inb out]. simpl.
  destruct s, k; simpl; try (split; [constructor | auto]; fail).
  - destruct inb as [|line waiting]; [split; [constructor|auto]|].
    destruct (Z.ltb_spec 0 (AString.len (AString.trim line))) as [Hlen|Hlen].
    + pose proof (processCommand_reachable lib (AString.trim line) c) as Hr.
      destruct (processCommand lib (AString.trim line) c) as [r c1]. simpl in *.
      split; [|exact Hr].
      apply (served_command (mkWiFiClient true true (line :: waiting) out) line waiting r);
        auto. simpl. lia.
    + split; [|auto].
      apply (served_blank (mkWiFiClient true true (line :: waiting) out) line waiting); auto.
      simpl. unfold AString.len in *. lia.
  - split; [|auto]. now apply (served_stopped (mkWiFiClient true false inb out)).
Qed.

Lemma serve_clients_served (lib : JsonLibrary) (slots : list WiFiClient) :
  forall c : PinController,
  Forall2 served slots (serve_clients lib slots c).1 /\
  (reachable c -> reachable (serve_clients lib slots c).2).
Proof.
  induction slots as [|cl rest IH]; intros c; simpl; [split; [constructor|auto]|].
  destruct (serve_client_served lib cl c) as [Hs Hr].
  destruct (serve_client lib cl c) as [cl' c1]. simpl in *.
  destruct (IH c1) as [Hs' Hr'].
  destruct (serve_clients lib rest c1) as [rest' c2]. simpl in *.
  split; [now constructor | auto].
Qed.

(** X21: one tick of the stream server without a new connection.  Slot by
    slot, a client is either left alone, or (its connection is gone) closed,
    or has exactly one waiting line taken; a blank line is taken without an
    answer, any other is answered with exactly one reply.  The number of
    slots never changes, so there are never more than that many connected
    clients, and the pin controller stays reachable. *)
Theorem one_command_per_client_per_tick
    (lib : JsonLibrary) (slots : list WiFiClient) (c : PinController) :
  reachable c ->
  exists slots' c',
    handleTCPClients lib None slots c = (slots', None, c') /\
    Forall2 served slots slots' /\
    length slots' = length slots /\
    (getConnectedClients slots' <= length slots)%nat /\
    reachable c'.
Proof.
  intros Hr. unfold handleTCPClients.
  destruct (serve_clients_served lib slots c) as [Hs Hr'].
  destruct (serve_clients lib slots c) as [slots' c']. simpl in *.
  exists slots', c'. split; [reflexivity|]. split; [exact Hs|].
  assert (Hlen : length slots' = length slots) by (symmetry; eapply Forall2_length; eauto).
  split; [exact Hlen|]. split; [|auto].
  unfold getConnectedClients. rewrite <- Hlen. apply length_filter.
Qed.

Lemma one_command_per_client_per_tick_witness :
  exists slots' c',
    handleTCPClients (library_yielding []) None
      [mkWiFiClient true true ["GET 13"; "SET 13 0"]%string []; WiFiClient_new] pin13_high
    = (slots', None, c') /\ length slots' = 2%nat.
Proof.
  assert (Hr : reachable pin13_high).
  { exists quiet_world, [OpSetDigital 13 1]. reflexivity. }
  destruct (one_command_per_client_per_tick (library_yielding [])
              [mkWiFiClient true true ["GET 13"; "SET 13 0"]%string []; WiFiClient_new]
              pin13_high Hr) as (slots' & c' & H1 & _ & H3 & _).
  exists slots', c'. split; [exact H1 | exact H3].
Defined.

Lemma string_length_app (a b : string) :
  String.length (a ++ b)%string = (String.length a + String.length b)%nat.
Proof. induction a as [|x a IH]; [reflexivity|]. simpl. now rewrite IH. Qed.

Lemma c_string_take_take (n : nat) (l more : list Ascii.ascii) :
  length l = n -> take n (l ++ more) = l.
Proof. intros <-. now rewrite take_app_length. Qed.

(** X22: the datagram channel.  Every datagram that is not empty is
    answered exactly once.  Only its first 511 bytes are looked at.  A
    datagram of nothing but white space is answered with the rejection "Empty
    command" and leaves the controller untouched (the stream server, by
    contrast, takes a blank line without answering). *)
Theorem every_datagram_is_answered
    (lib : JsonLibrary) (data more : string) (c : PinController) :
  AString.len data <> 0 ->
  (exists r c', handleUDP lib (Some data) c = (Some r, c')) /\
  (String.length data = 511%nat -> handleUDP lib (Some (data ++ more)%string) c = handleUDP lib (Some data) c) /\
  (AString.trim (String.string_of_list_ascii
                   (c_string (take 511 (String.list_ascii_of_string data)))) = ""%string ->
   handleUDP lib (Some data) c
   = (Some (ReplyJson [("success"%string, JBool false); ("command"%string, JStr "INVALID");
                       ("message"%string, JStr "Empty command")]), c)).
Proof.
  intros Hlen.
  assert (Hpos : (0 <? AString.len data) = true).
  { apply Z.ltb_lt. unfold AString.len in *. lia. }
  split; [|split].
  - unfold handleUDP. rewrite Hpos.
    destruct (processCommand lib _ c) as [r c']. eauto.
  - intros H511. unfold handleUDP. rewrite Hpos.
    assert (Hpos' : (0 <? AString.len (data ++ more)%string) = true).
    { apply Z.ltb_lt. unfold AString.len in *. rewrite string_length_app. lia. }
    rewrite Hpos'.
    assert (Hl : String.list_ascii_of_string (data ++ more)%string
                 = String.list_ascii_of_string data ++ String.list_ascii_of_string more).
    { clear. induction data as [|a s IH]; [reflexivity|]. simpl. now rewrite IH. }
    rewrite Hl. simpl Nat.sub.
    assert (Hll : length (String.list_ascii_of_string data) = 511%nat).
    { rewrite <- H511. clear. induction data as [|a s IH]; [reflexivity|]. simpl.
      now rewrite IH. }
    rewrite (c_string_take_take 511 _ _ Hll).
    rewrite <- Hll at 1. now rewrite firstn_all.
  - intros Hblank. unfold handleUDP. rewrite Hpos. simpl Nat.sub. rewrite Hblank.
    reflexivity.
Qed.

Lemma every_datagram_is_answered_witness :
  handleUDP (library_yielding []) (Some "  ") pin13_high
  = (Some (ReplyJson [("success"%string, JBool false); ("command"%string, JStr "INVALID");
                      ("message"%string, JStr "Empty command")]), pin13_high).
Proof.
  destruct (every_datagram_is_answered (library_yielding []) "  " "" pin13_high)
    as (_ & _ & H); [discriminate|].
  apply H. reflexivity.
Defined.

(** ** The web endpoints *)

Lemma reachable_record_modes (c : PinController) (pin : Z) (state : PinState) :
  reachable c -> _pinStates c !! pin = Some state -> isInitialized state = true ->
  isValidPin pin = true /\ ((exists v, state = digital v /\ (v = 0 \/ v = 1))
                           \/ (exists v, state = pwm v /\ 0 <= v <= 255)).
Proof.
  intros Hr E Hi. destruct (reachable_inv c Hr) as [_ _ _ _ Hp Hd Hs].
  destruct (Hs pin state E) as [Hpin [-> | [[v ->] | [v ->]]]]; [discriminate| |].
  - split; [exact Hpin|]. left. exists v. split; [reflexivity|]. now apply (Hd pin).
  - split; [exact Hpin|]. right. exists v. split; [reflexivity|]. now apply (Hp pin).
Qed.

(** X23: the web GET endpoint only reports.  On a reachable controller
    [handleGetPin] never changes the controller, hardware included, and its
    answer is decided by the request and the store: without a pin parameter
    it is 400 "Missing pin parameter"; for a pin that is not configured it
    is 400 "Pin not configured"; for a configured pin it is 200 with the
    value held in the record and the mode DIGITAL or PWM.  Unlike the GET
    command of the text protocol it never switches a pin to input. *)
Theorem web_get_only_reports (params : gmap string string) (c : PinController) :
  reachable c ->
  (handleGetPin params c).2 = c /\
  (params !! "pin"%string = None ->
     (handleGetPin params c).1
     = (400, [("success"%string, JBool false);
              ("message"%string, JStr "Missing pin parameter")])) /\
  (forall pinStr, params !! "pin"%string = Some pinStr ->
     isPinConfigured (AString.toInt pinStr) c = false ->
     (handleGetPin params c).1
     = (400, [("success"%string, JBool false);
              ("message"%string, JStr "Pin not configured")])) /\
  (forall pinStr, params !! "pin"%string = Some pinStr ->
     isPinConfigured (AString.toInt pinStr) c = true ->
     exists state,
       _pinStates c !! AString.toInt pinStr = Some state /\
       (handleGetPin params c).1
       = (200, [("success"%string, JBool true); ("pin"%string, JInt (AString.toInt pinStr));
                ("value"%string, JInt (value state));
                ("mode"%string,
                 JStr (if PinMode_eqb (mode state) PWM_OUTPUT then "PWM" else "DIGITAL"))])).
Proof.
  intros Hr. unfold handleGetPin.
  destruct (params !! "pin"%string) as [pinStr|];
    [|split; [reflexivity|]; split; [reflexivity|]; split; intros ? ?; discriminate].
  cbv zeta. remember (AString.toInt pinStr) as pin eqn:Hpin0.
  assert (Hcfg : isPinConfigured pin c = false \/
                 exists state, _pinStates c !! pin = Some state /\ isInitialized state = true
                               /\ isPinConfigured pin c = true).
  { unfold isPinConfigured. destruct (_pinStates c !! pin) as [state|]; [|now left].
    destruct (isInitialized state) eqn:Hi; [right | now left]. now exists state. }
  destruct Hcfg as [Hno | (state & E & Hi & Hyes)].
  - rewrite Hno. simpl negb. cbv iota.
    split; [reflexivity|]. split; [intros ?; discriminate|].
    split; [reflexivity|].
    intros s Hs. injection Hs as <-. rewrite <- Hpin0, Hno. discriminate.
  - rewrite Hyes. simpl negb. cbv iota.
    assert (Hans : forall s, Some pinStr = Some s -> AString.toInt s = pin).
    { intros s Hs. injection Hs as <-. now rewrite Hpin0. }
    unfold getPinMode. rewrite E.
    destruct (reachable_record_modes c pin state Hr E Hi) as [Hpin [(v & -> & _) | (v & -> & _)]].
    + simpl. rewrite (getDigital_cached pin c (digital v) Hpin E) by reflexivity.
      split; [reflexivity|]. split; [intros ?; discriminate|].
      split; [intros s Hs; rewrite (Hans s Hs), Hyes; discriminate|].
      intros s Hs _. rewrite (Hans s Hs). exists (digital v). auto.
    + simpl. unfold getPWM. rewrite Hpin, E. simpl.
      split; [reflexivity|]. split; [intros ?; discriminate|].
      split; [intros s Hs; rewrite (Hans s Hs), Hyes; discriminate|].
      intros s Hs _. rewrite (Hans s Hs). exists (pwm v). auto.
Qed.

Lemma web_get_only_reports_witness :
  reachable pin13_pwm /\
  (handleGetPin {[ "pin"%string := "13"%string ]} pin13_pwm).2 = pin13_pwm.
Proof.
  assert (Hr : reachable pin13_pwm).
  { exists quiet_world, [OpSetPWM 13 100]. reflexivity. }
  split; [exact Hr|].
  exact (proj1 (web_get_only_reports {[ "pin"%string := "13"%string ]} pin13_pwm Hr)).
Defined.



(** ** Choosing a network *)

Lemma scan_for_spec (i : Z) (ssid : string) (scan : list (string * Z)) :
  forall best : Z * Z,
  let best' := scan_for i ssid scan best in
  best.2 <= best'.2 /\
  (forall rssi, (ssid, rssi) ∈ scan -> rssi <= best'.2) /\
  (best' = best \/ (best'.1 = i /\ (ssid, best'.2) ∈ scan /\ best.2 < best'.2)).
Proof.
  unfold scan_for. induction scan as [|[s r] scan IH]; intros best; simpl.
  - split; [lia|]. split; [|now left]. intros rssi H. now apply not_elem_of_nil in H.
  - set (b1 := if String.eqb s ssid then if best.2 <? r then (i, r) else best else best).
    destruct (IH b1) as (Hmono & Hmax & Hwho).
    assert (Hb1 : best.2 <= b1.2 /\ (s = ssid -> r <= b1.2) /\
                  (b1 = best \/ (b1 = (i, r) /\ s = ssid /\ best.2 < r))).
    { subst b1. destruct (String.eqb_spec s ssid) as [->|Hne].
      - destruct (Z.ltb_spec best.2 r); simpl.
        + split; [lia|]. split; [lia|]. right. auto.
        + split; [lia|]. split; [lia|]. now left.
      - split; [lia|]. split; [congruence|]. now left. }
    destruct Hb1 as (H1 & H2 & H3).
    split; [lia|]. split.
    + intros rssi Hin. apply elem_of_cons in Hin as [Heq | Hin]; [|now apply Hmax].
      injection Heq as <- <-. specialize (H2 eq_refl). lia.
    + destruct Hwho as [-> | (Hi & Hin & Hlt)].
      * destruct H3 as [-> | (-> & -> & Hlt)]; [now left|].
        right. simpl. split; [reflexivity|]. split; [left | lia].
      * right. split; [exact Hi|]. split; [now right | lia].
Qed.

Lemma networks_from_spec (scan : list (string * Z)) (ssids : list string) :
  forall (i : nat) (before : list string) (best : Z * Z),
  length before = i ->
  let best' := networks_from (Z.of_nat i) ssids scan best in
  best.2 <= best'.2 /\
  (forall j ssid rssi, visible ssids scan j ssid rssi -> rssi <= best'.2) /\
  (best' = best \/
   exists j ssid, best'.1 = Z.of_nat (i + j) /\ visible ssids scan j ssid best'.2
                  /\ best.2 < best'.2).
Proof.
  induction ssids as [|ssid rest IH]; intros i before best Hlen; simpl.
  - split; [lia|]. split; [|now left]. intros j s r [H _]. now rewrite lookup_nil in H.
  - destruct (scan_for_spec (Z.of_nat i) ssid scan best) as (Hm1 & Hmax1 & Hwho1).
    set (b1 := scan_for (Z.of_nat i) ssid scan best) in *.
    destruct (IH (S i) (before ++ [ssid]) b1) as (Hm2 & Hmax2 & Hwho2).
    { rewrite length_app. simpl. lia. }
    replace (Z.of_nat i + 1) with (Z.of_nat (S i)) by lia.
    set (b2 := networks_from (Z.of_nat (S i)) rest scan b1) in *.
    split; [lia|]. split.
    + intros j s r [Hj Hin]. destruct j as [|j]; simpl in Hj.
      * injection Hj as <-. specialize (Hmax1 r Hin). lia.
      * apply (Hmax2 j s r). now split.
    + destruct Hwho2 as [Heq | (j & s & Hidx & [Hj Hin] & Hlt)].
      * rewrite Heq. destruct Hwho1 as [-> | (Hidx & Hin & Hlt)]; [now left|].
        right. exists 0%nat, ssid. split; [rewrite Hidx; f_equal; lia|].
        split; [split; [reflexivity | exact Hin] | exact Hlt].
      * right. exists (S j), s. split; [rewrite Hidx; f_equal; lia|].
        split; [split; [exact Hj | exact Hin] | lia].
Qed.

(** X25: [findBestNetwork] picks the strongest configured network in sight.
    Its result is either -1, and then no configured network was found with a
    signal above -100 dBm, or the index of a configured network that was
    found with a signal above -100 dBm and at least as strong as every other
    sighting of a configured network.  It is always -1 or a valid index. *)
Theorem findBestNetwork_is_strongest (ssids : list string) (scan : list (string * Z)) :
  (findBestNetwork ssids scan = -1 /\
   forall j ssid rssi, visible ssids scan j ssid rssi -> rssi <= -100) \/
  (exists i ssid rssi,
     findBestNetwork ssids scan = Z.of_nat i /\ (i < length ssids)%nat /\
     visible ssids scan i ssid rssi /\ -100 < rssi /\
     forall j ssid' rssi', visible ssids scan j ssid' rssi' -> rssi' <= rssi).
Proof.
  unfold findBestNetwork.
  destruct scan as [|found scan].
  - left. split; [reflexivity|]. intros j s r [_ H]. now apply not_elem_of_nil in H.
  - replace (Z.of_nat (length (found :: scan)) =? 0) with false
      by (symmetry; apply Z.eqb_neq; simpl; lia).
    destruct (networks_from_spec (found :: scan) ssids 0%nat [] (-1, -100) eq_refl)
      as (_ & Hmax & Hwho).
    change (Z.of_nat 0) with 0 in *.
    destruct Hwho as [Heq | (j & s & Hidx & Hvis & Hlt)].
    + left. rewrite Heq in *. split; [reflexivity | exact Hmax].
    + right. exists j, s, (networks_from 0 ssids (found :: scan) (-1, -100)).2.
      split; [exact Hidx|]. split; [|split; [exact Hvis | split; [exact Hlt | exact Hmax]]].
      destruct Hvis as [Hj _]. now apply lookup_lt_Some in Hj.
Qed.

(** X26: the web endpoints refuse pins outside the allowed set.  When the
    pin parameter reads (by [toInt], so any text that is not a number reads
    as 0) as a pin that is not allowed, the set, toggle and PWM endpoints
    answer 400 with success=false and return the controller untouched, on
    any controller; on a reachable controller so does the get endpoint. *)
Theorem web_refuses_disallowed_pins (params : gmap string string) (pinStr : string)
    (c : PinController) :
  params !! "pin"%string = Some pinStr -> isValidPin (AString.toInt pinStr) = false ->
  (forall handler, handler = handleSetPin \/ handler = handleTogglePin \/ handler = handleSetPWM ->
     (handler params c).2 = c /\ (handler params c).1.1 = 400 /\
     doc_get "success" (handler params c).1.2 = Some (JBool false)) /\
  (reachable c ->
     handleGetPin params c = (sendJSONResponse 400 false "Pin not configured" "", c)).
Proof.
  intros Hp Hpin. split.
  - intros handler [-> | [-> | ->]].
    + unfold handleSetPin. rewrite Hp. destruct (params !! "value"%string); [|auto].
      cbv zeta. rewrite setDigital_invalid by exact Hpin. auto.
    + unfold handleTogglePin. rewrite Hp. cbv zeta.
      rewrite toggle_invalid by exact Hpin. auto.
    + unfold handleSetPWM. rewrite Hp. destruct (params !! "value"%string); [|auto].
      cbv zeta. destruct (_ || _); [auto|].
      rewrite setPWM_invalid by exact Hpin. auto.
  - intros Hr. unfold handleGetPin. rewrite Hp. cbv zeta.
    unfold isPinConfigured.
    destruct (_pinStates c !! AString.toInt pinStr) as [state|] eqn:E; [|reflexivity].
    destruct (reachable_inv c Hr) as [_ _ _ _ _ _ Hs].
    destruct (Hs _ _ E) as [Hvalid _]. congruence.
Qed.

Lemma web_refuses_disallowed_pins_witness :
  handleGetPin {[ "pin"%string := "thirteen"%string ]} pin13_high
  = (sendJSONResponse 400 false "Pin not configured" "", pin13_high).
Proof.
  assert (Hr : reachable pin13_high).
  { exists quiet_world, [OpSetDigital 13 1]. reflexivity. }
  assert (Hp : ({[ "pin"%string := "thirteen"%string ]} : gmap string string) !! "pin"%string
               = Some "thirteen"%string) by apply lookup_singleton_eq.
  assert (Hpin : isValidPin (AString.toInt "thirteen") = false) by reflexivity.
  destruct (web_refuses_disallowed_pins {[ "pin"%string := "thirteen"%string ]}
              "thirteen" pin13_high Hp Hpin) as [_ H].
  exact (H Hr).
Defined.
